(** * Pipeline layer of axlearn (axlearn/common/pipeline.py)

    A shallow embedding of the GPipe-style pipeline layer: the two layout
    transposes, the carry/input selector, the validity mask, the scan body
    and the scheduler [_run], followed by the properties proved about them.

    Arrays.  Every array the pipeline touches is only ever manipulated along
    its one or two leading axes (stage, microbatch, timestep); the trailing
    axes [...] travel along untouched.  An array of shape [K, ...] is
    therefore a [list A] of its [K] slices, an array of shape [R, C, ...] a
    [list (list A)], where [A] is the type of trailing blocks and [zero] the
    zero-filled block that [jnp.pad] and [jnp.zeros] produce.  Element types
    (dtypes) are not modelled.

    Nested structures.  [jax.tree_util] sees a nested structure as a tree
    definition plus the list of its leaves and maps over the leaves; a
    [Nested T] is that list of leaves, in flattening order.

    Integers.  Shapes and the numbers of stages and microbatches are Python
    integers; the loop counter [t] and the stage ids are [jnp.int32]. *)

From stdpp Require Import base list strings pretty.
From Stdlib Require Import ZArith Lia.

Local Open Scope nat_scope.

Abbreviation Nested := list (only parsing).

(** ** Exceptions *)

Inductive Exception :=
| ValueError (msg : string).

Abbreviation result := (sum Exception) (only parsing).

#[global] Instance result_ret : MRet (sum Exception) := λ _ x, inr x.
#[global] Instance result_bind : MBind (sum Exception) := λ _ _ f mx,
  match mx with inl e => inl e | inr x => f x end.

Definition raise {T : Type} (e : Exception) : result T := inl e.

(** ** Array primitives *)

Section arrays.
Context {A : Type}.
Variable zero : A.

(** [x[i, j]]: [None] stands for Python's IndexError. *)
Definition lookup2 (x : list (list A)) (i j : nat) : option A :=
  x !! i ≫= (.!! j).

(** [x.shape[:2]] of an array given by its rows.  (For an array without
    rows the second entry reads as 0.) *)
Definition shape2 (x : list (list A)) : nat * nat :=
  (length x, length (default [] (head x))).

(** Python's [l[:stop]] for an integer [stop] of either sign. *)
Definition slice_stop (stop : Z) (l : list A) : list A :=
  if (stop <? 0)%Z then take (length l - Z.to_nat (- stop)) l
  else take (Z.to_nat stop) l.

(** [jnp.pad(x, [(0, 0), (0, k)] + ...)]: [k] zero columns on the right. *)
Definition pad_axis1 (k : nat) (x : list (list A)) : list (list A) :=
  (λ r, r ++ replicate k zero) <$> x.

(** [jnp.reshape(x, [-1] + list(x.shape[2:]))]: merge the two leading axes
    (row-major). *)
Definition flatten2 (x : list (list A)) : list A := mjoin x.

(** [jnp.reshape(x, [r, c] + list(x.shape[1:]))]: split the leading axis
    into [r] rows of [c] entries (row-major). *)
Definition unflatten2 (r c : nat) (x : list A) : list (list A) :=
  reshape (replicate r c) x.

(** [jnp.transpose(x, [1, 0] + list(range(2, x.ndim)))] of an array with
    [c] columns. *)
Fixpoint transpose (c : nat) (x : list (list A)) : list (list A) :=
  match x with
  | [] => replicate c []
  | r :: x' => zip_with cons r (transpose c x')
  end.

(** [jax.lax.slice(x, [s0, s1] + [0] * (x.ndim - 2), x.shape)]. *)
Definition lax_slice2 (s0 s1 : nat) (x : list (list A)) : list (list A) :=
  drop s1 <$> drop s0 x.

(** [jnp.squeeze(x, 1)]: a reshape from [K, 1, ...] to [K, ...]. *)
Definition squeeze1 (x : list (list A)) : list A := mjoin x.

(** [jnp.where(c, a, b)] with all three operands indexed along the leading
    axis. *)
Definition where_ (c : list bool) (a b : list A) : list A :=
  zip_with (λ (ci : bool) (ab : A * A), if ci then ab.1 else ab.2) c (zip a b).

(** [jax.lax.stop_gradient] is the identity on forward values. *)
Definition stop_gradient (x : list A) : list A := x.

(** [x[i]] with a traced integer [i]: negative indices count from the end,
    and out-of-range indices are clamped into the axis. *)
Definition dynamic_index (x : list A) (i : Z) : option A :=
  let len := Z.of_nat (length x) in
  let i := if (i <? 0)%Z then (i + len)%Z else i in
  x !! Z.to_nat (Z.max 0 (Z.min i (len - 1))).

(** ** The layout transposes *)

(** [with_sharding_constraint] only annotates placement and returns its
    argument; the [partition_spec] arguments are left out throughout. *)
Definition transpose_to_pipeline_stage_inputs (x : list (list A))
  : list (list A) :=
  let '(n, m) := shape2 x in
  (* [N, M + N, ...]. *)
  let x := pad_axis1 n x in
  (* [N * (M + N), ...]. *)
  let x := flatten2 x in
  (* [N * (M + N - 1), ...]. *)
  let x := slice_stop (- Z.of_nat n) x in
  (* [N, M + N - 1, ...]. *)
  let x := unflatten2 n (m + n - 1) x in
  (* [M + N - 1, N, ...]. *)
  transpose (m + n - 1) x.

Definition transpose_from_pipeline_stage_outputs (x : list (list A))
  : list (list A) :=
  let '(t, n) := shape2 x in
  let m : Z := (Z.of_nat t - Z.of_nat n + 1)%Z in
  (* [N, M+N-1, ...]. *)
  let x := transpose n x in
  (* [N * (M+N-1), ...]. *)
  let x := flatten2 x in
  (* [N * (M+N), ...]. *)
  let x := x ++ replicate n zero in
  (* [N, M+N, ...]. *)
  let x := unflatten2 n (Z.to_nat (m + Z.of_nat n)) x in
  (* [N, M, ...]. *)
  slice_stop m <$> x.

(** [xs[l][i, j]] in a nested structure of arrays. *)
Definition lookup3 (xs : list (list (list A))) (l i j : nat) : option A :=
  xs !! l ≫= λ x, lookup2 x i j.

(** An array of shape [r, c, ...]. *)
Definition shaped (r c : nat) (x : list (list A)) : Prop :=
  length x = r ∧ Forall (λ row, length row = c) x.

End arrays.

(** [jax.vmap] and [jax.lax.scan] move between a nested structure of stacked
    arrays and a list of nested structures of slices.  [stack] reads the
    number of leaves off the first slice (JAX knows it from tracing, also
    when there is no slice at all). *)
Definition unstack {A : Type} (k : nat) (leaves : Nested (list A))
  : list (Nested A) :=
  transpose k leaves.

Definition stack {A : Type} (slices : list (Nested A)) : Nested (list A) :=
  transpose (length (default [] (head slices))) slices.

(** [jax.lax.scan(f, init, xs)] over the list of per-step inputs. *)
Fixpoint scan {C X Y : Type} (f : C → X → result (C * Y)) (init : C)
    (xs : list X) : result (C * list Y) :=
  match xs with
  | [] => mret (init, [])
  | x :: xs' =>
      '(c, y) ← f init x;
      '(c', ys) ← scan f c xs';
      mret (c', y :: ys)
  end.

(** A [jnp.int32] is a [Z] in [-2^31, 2^31); its arithmetic wraps. *)
Definition wrap32 (z : Z) : Z := ((z + 2 ^ 31) `mod` 2 ^ 32 - 2 ^ 31)%Z.

(** Python's [str] of a shape tuple. *)
Definition show_shape (s : list nat) : string :=
  match s with
  | [] => "()"
  | [a] => "(" +:+ pretty a +:+ ",)"
  | a :: s' =>
      "(" +:+ pretty a +:+ foldr (λ b acc, ", " +:+ pretty b +:+ acc) ")" s'
  end.

(** ** The pipeline layer *)

(** [Pipeline.Config], without the configuration of the sub layer. *)
Record Config := {
  num_layers : nat;
  num_microbatches : nat;
}.

Section pipeline.
Context {A : Type}.
Variable zero : A.
(** [jax.random.split(key, num)]. *)
Variable random_split : A → nat → list A.

(** A carry leaf as the caller passes it: a rank-0 array, or an array with a
    leading axis, given by its slices along that axis and the shape [inner]
    of one slice. *)
Inductive Tensor :=
| Scalar (v : A)
| Rows (inner : list nat) (rows : list A).

Definition shape (x : Tensor) : list nat :=
  match x with
  | Scalar _ => []
  | Rows inner rows => length rows :: inner
  end.

Definition ndim (x : Tensor) : nat := length (shape x).

(** [jax.tree_util.tree_leaves]; [None] is a structure without leaves. *)
Definition tree_leaves {T : Type} (tree : option (Nested T)) : list T :=
  default [] tree.

(** What one stage computes for one microbatch: [vmap_fn]'s dictionary, and
    after [jax.vmap] and [jax.lax.scan] its stacked versions. *)
Record Outputs (T : Type) := mkOutputs {
  out_carry : Nested T;
  out_y : Nested T;
  out_collection : Nested T;
}.
#[global] Arguments mkOutputs {T}.
#[global] Arguments out_carry {T}.
#[global] Arguments out_y {T}.
#[global] Arguments out_collection {T}.

(** [fn] runs inside a child context that provides the stage's parameters
    [state] and its [prng_key] and collects its auxiliary outputs: these are
    explicit arguments and results here. *)
Definition StageFn : Type :=
  Nested A → A → Nested A → Nested A → Nested A * Nested A * Nested A.

Record LoopState := mkLoopState {
  t : Z;
  carry_output_t_1 : Nested (list A);
  per_stage_inputs : Nested (list (list A));
}.

Record Output := mkOutput {
  carry : Nested (list A);
  ys : Nested (list (list A));
  (** The stacked auxiliary outputs merged into the invocation context.
      (Their further split into one child per layer and microbatch is not
      modelled.) *)
  layer_output_collection : Nested (list (list A));
}.

(** The slices of a carry leaf along its leading axis. *)
Definition tensor_rows (x : Tensor) : list A :=
  match x with
  | Scalar _ => []
  | Rows _ rows => rows
  end.

Variable cfg : Config.

Definition _num_stages : nat := num_layers cfg.
Definition _num_microbatches : nat := num_microbatches cfg.

(** The mask, one entry per stage; [stage_id] and [t] are [jnp.int32]. *)
Definition _is_valid_stage (per_stage_values : list A) (t : Z)
  : result (list bool) :=
  if decide (length per_stage_values ≠ _num_stages) then
    raise (ValueError ("Leading dim " +:+ pretty (length per_stage_values)
                       +:+ " does not match number of stages "
                       +:+ pretty _num_stages +:+ "."))
  else
    let stage_id := Z.of_nat <$> seq 0 _num_stages in
    mret ((λ i, bool_decide (i ≤ t)%Z
                && bool_decide (wrap32 (t - i) < Z.of_nat _num_microbatches)%Z)
            <$> stage_id).

(** The (stage, timestep) pairs that [_is_valid_stage] marks as valid over
    the M + N - 1 timesteps of the loop. *)
Definition valid_pairs (per_stage_values : list A) : list (nat * nat) :=
  t ← seq 0 (_num_microbatches + _num_stages - 1);
  match _is_valid_stage per_stage_values (Z.of_nat t) with
  | inl _ => []
  | inr mask =>
      i ← seq 0 _num_stages;
      if default false (mask !! i) then [(i, t)] else []
  end.

(** [t % m] takes the sign of [m], as [Z.modulo] does.  (An input without
    rows has nothing to select; the model reads an empty row there.) *)
Definition select_state_or_input (t : Z) (v_input_t : list (list A))
    (v_carry_output_t_1 : list A) : list A :=
  let m := Z.of_nat _num_microbatches in
  (* Select the current microbatch index. *)
  let v_input_t := default [] (dynamic_index v_input_t (t `mod` m)%Z) in
  (* Shift-right t-1 vmap outputs along the N dim. *)
  let v_carry_output_t_1 :=
    take (length v_carry_output_t_1) (zero :: v_carry_output_t_1) in
  where_ ((λ i, bool_decide (i = 0)) <$> seq 0 (length v_carry_output_t_1))
    v_input_t v_carry_output_t_1.

Definition _compute_carry_input (per_stage_inputs : Nested (list (list A)))
    (carry_output_t_1 : Nested (list A)) (t : Z) : Nested (list A) :=
  zip_with (select_state_or_input t) per_stage_inputs carry_output_t_1.

Section run.
Variable layer_state : Nested (list A).
Variable prng_key : A.
Variable fn : StageFn.

Definition vmap_fn (state_n : Nested A) (prng_key_tn : A)
    (carry_tn x_tn : Nested A) : Outputs A :=
  let '(carry_tn, y_tn, output_collection_tn) :=
    fn state_n prng_key_tn carry_tn x_tn in
  mkOutputs carry_tn y_tn output_collection_tn.

(** [jax.vmap(vmap_fn)(state, prng_key_t, vmap_in, x_t)]: one call per
    entry of the leading axis, results stacked leaf by leaf. *)
Definition vmap (state : Nested (list A)) (prng_key_t : list A)
    (vmap_in x_t : Nested (list A)) : Outputs (list A) :=
  let k := length prng_key_t in
  let outs :=
    zip_with (λ (sk : Nested A * A) (cx : Nested A * Nested A),
                vmap_fn sk.1 sk.2 cx.1 cx.2)
      (zip (unstack k state) prng_key_t)
      (zip (unstack k vmap_in) (unstack k x_t)) in
  mkOutputs (stack (out_carry <$> outs)) (stack (out_y <$> outs))
    (stack (out_collection <$> outs)).

Definition scan_fn (carry_in : LoopState)
    (xs_t : list A * Nested (list A))
  : result (LoopState * Outputs (list A)) :=
  (* Input state. *)
  let t := t carry_in in
  let carry_output_t_1 := carry_output_t_1 carry_in in
  let per_stage_inputs := per_stage_inputs carry_in in
  (* Per-timestep inputs. *)
  let '(prng_key_t, x_t) := xs_t in
  let vmap_in := _compute_carry_input per_stage_inputs carry_output_t_1 t in
  state ← mapM (λ x, mask ← _is_valid_stage x t;
                     mret (where_ mask x (stop_gradient x))) layer_state;
  (* Parallel processing along the N axis. *)
  let vmap_out := vmap state prng_key_t vmap_in x_t in
  (* Output state. *)
  let carry_out :=
    mkLoopState (wrap32 (t + 1)) (out_carry vmap_out) per_stage_inputs in
  mret (carry_out, vmap_out).

(** [jnp.expand_dims] rejects axis 1 on a rank-0 array and [jnp.pad] a
    negative pad width. *)
Definition pad_carry (n : nat) (v_carry : Tensor) : result (list (list A)) :=
  match v_carry with
  | Scalar _ =>
      raise (ValueError "axis 1 is out of bounds for array of dimension 1")
  | Rows _ rows =>
      if decide (n = 0) then
        raise (ValueError "index can't contain negative values")
      else mret (pad_axis1 zero (n - 1) ((λ r, [r]) <$> rows))
  end.

Definition stack_and_reshape (m n : nat) (keys : list A) : list (list A) :=
  unflatten2 (m + n - 1) n keys.

(** The per-step inputs of [jax.lax.scan(scan_fn, init, xs=(prng_keys,
    padded_xs))]: [scan] slices every leaf of [xs] along its leading axis
    and rejects leaves whose leading axes differ. *)
Definition scan_inputs (prng_keys : list (list A))
    (padded_xs : Nested (list (list A)))
  : result (list (list A * Nested (list A))) :=
  let steps := length prng_keys in
  if forallb (λ leaf, bool_decide (length leaf = steps)) padded_xs then
    mret (zip prng_keys (unstack steps padded_xs))
  else raise (ValueError "scan got values with different leading axis sizes").

Definition extract_outputs (n : nat) (x : list (list A)) : list A :=
  squeeze1 (lax_slice2 (n - 1) ((shape2 x).2 - 1) x).

(** The padded carry that [pad_carry] produces on arrays with a leading
    axis: only slot 0 of the new stage axis is populated. *)
Definition padded_carry (n : nat) (carry : Nested Tensor)
  : Nested (list (list A)) :=
  (λ leaf, pad_axis1 zero (n - 1) ((λ r, [r]) <$> tensor_rows leaf))
    <$> carry.

(** The loop inputs that [_run] prepares. *)
Definition padded_xs (xs : Nested (list (list A)))
  : Nested (list (list A)) :=
  transpose_to_pipeline_stage_inputs zero <$> xs.

Definition prng_keys (m n : nat) : list (list A) :=
  stack_and_reshape m n (random_split prng_key ((m + n - 1) * n)).

Definition state_t0 (n : nat) (carry : Nested Tensor)
    (per_stage_inputs : Nested (list (list A))) : LoopState :=
  mkLoopState 0 ((λ _, replicate n zero) <$> carry) per_stage_inputs.

Definition _run (carry : option (Nested Tensor))
    (xs : option (Nested (list (list A)))) : result Output :=
  let carry_leaves := tree_leaves carry in
  match carry_leaves with
  | [] => raise (ValueError "Expected at least one input leaf.")
  | leaf0 :: _ =>
      if decide (ndim leaf0 < 2) then
        raise (ValueError
          ("Expected leaves to have shape "
           +:+ "`[num_microbatches, microbatch_size, ...]`; "
           +:+ "instead, found " +:+ show_shape (shape leaf0) +:+ "."))
      else
        (* Number of microbatches. *)
        let m := default 0 (head (shape leaf0)) in
        (* Number of pipeline stages. *)
        let n := _num_stages in
        let carry := match carry with None => [] | Some carry => carry end in
        let xs := match xs with None => [] | Some xs => xs end in
        (* Leaves are of shape [M, N, microbatch_size, ...]. *)
        per_stage_inputs ← mapM (pad_carry n) carry;
        scan_xs ← scan_inputs (prng_keys m n) (padded_xs xs);
        '(_, scan_ys) ←
          scan scan_fn (state_t0 n carry per_stage_inputs) scan_xs;
        let final_carry :=
          extract_outputs n <$> stack (out_carry <$> scan_ys) in
        (* Transpose from pipeline-major back to layer-major. *)
        let ys :=
          transpose_from_pipeline_stage_outputs zero
            <$> stack (out_y <$> scan_ys) in
        let layer_output_collection :=
          transpose_from_pipeline_stage_outputs zero
            <$> stack (out_collection <$> scan_ys) in
        mret (mkOutput final_carry ys layer_output_collection)
  end.

(** The carry as the docstring of [_run] wants it: at least one leaf, and
    every leaf of shape [M, microbatch_size, ...]. *)
Definition carry_shaped (m : nat) (carry : Nested Tensor) : Prop :=
  carry ≠ []
  ∧ Forall (λ leaf, 2 ≤ ndim leaf ∧ head (shape leaf) = Some m) carry.

(** *** Reference semantics

    What the pipeline is meant to compute: microbatch [j] is sent through
    the stages one after another, stage [i] working on it with the stage's
    parameters, the random key of timestep [i + j] and the layer-wise input
    [xs[i, j]], and handing its carry to stage [i + 1]. *)

Fixpoint stage_after_stage (states : list (Nested A))
    (prng_keys : list (list A)) (microbatches : list (Nested A))
    (xs : list (list (Nested A))) (j i : nat) : option (Outputs A) :=
  state_i ← states !! i;
  prng_key_tn ← lookup2 prng_keys (i + j) i;
  x_ij ← lookup2 xs i j;
  carry_in ← match i with
             | 0 => microbatches !! j
             | S i' =>
                 out_carry
                   <$> stage_after_stage states prng_keys microbatches xs j i'
             end;
  Some (vmap_fn state_i prng_key_tn carry_in x_ij).

Definition sequential (carry : Nested Tensor)
    (xs : Nested (list (list A))) (j i : nat) : option (Outputs A) :=
  let m := length (tensor_rows (default (Rows [] []) (head carry))) in
  let n := _num_stages in
  stage_after_stage (unstack n layer_state) (prng_keys m n)
    (unstack m (tensor_rows <$> carry))
    (unstack m <$> unstack n xs) j i.

(** *** Loop invariant

    [slice_of stacked i slice]: along the stage axis, the slices at [i] of
    the leaves of [stacked] are the leaves of [slice]. *)
Definition slice_of (stacked : Nested (list A)) (i : nat) (slice : Nested A)
  : Prop :=
  ∀ l, lookup2 stacked l i = slice !! l.

(** The record emitted at timestep [k]: at every stage that is valid at
    [k] it holds what [reference] computes for stage [i] and microbatch
    [k - i]; [shapes] are the numbers of leaves of the three outputs. *)
Definition record_ok (reference : nat → nat → option (Outputs A))
    (m n : nat) (shapes : nat * nat * nat) (k : nat) (vo : Outputs (list A))
  : Prop :=
  shaped shapes.1.1 n (out_carry vo)
  ∧ shaped shapes.1.2 n (out_y vo)
  ∧ shaped shapes.2 n (out_collection vo)
  ∧ ∀ i, i < n → i ≤ k → k - i < m →
      ∃ r, reference (k - i) i = Some r
           ∧ slice_of (out_carry vo) i (out_carry r)
           ∧ slice_of (out_y vo) i (out_y r)
           ∧ slice_of (out_collection vo) i (out_collection r).

(** The loop state after [k] transitions. *)
Definition state_ok (reference : nat → nat → option (Outputs A))
    (m n : nat) (shapes : nat * nat * nat)
    (psi : Nested (list (list A))) (k : nat) (st : LoopState) : Prop :=
  t st = Z.of_nat k
  ∧ per_stage_inputs st = psi
  ∧ match k with
    | 0 => shaped shapes.1.1 n (carry_output_t_1 st)
    | S k' =>
        ∃ vo, carry_output_t_1 st = out_carry vo
              ∧ record_ok reference m n shapes k' vo
    end.

(** The structure of what [fn] returns is fixed by the structure of its
    arguments: given parameters of [Ls] leaves, a carry of [L] leaves and
    layer-wise inputs of [Lx] leaves it returns a carry of [L] leaves, [ky]
    leaves of layer-wise output and [ko] leaves of auxiliary output.  (JAX
    traces [fn] once, and [jax.lax.scan] requires the structure of the
    carry to stay the same.) *)
Definition uniform_structure (Ls L Lx ky ko : nat) : Prop :=
  ∀ state_n prng_key_tn carry_tn x_tn,
    length state_n = Ls → length carry_tn = L → length x_tn = Lx →
    let out := vmap_fn state_n prng_key_tn carry_tn x_tn in
    length (out_carry out) = L
    ∧ length (out_y out) = ky
    ∧ length (out_collection out) = ko.

(** The final carry as section 4.6 of the specification words it: the
    stacked carry outputs sliced at the last stage and the final timestep,
    the time axis then squeezed away. *)
Definition last_stage_at_final_timestep (n : nat) (x : list (list A))
  : list A :=
  mjoin (lax_slice2 (length x - 1) (n - 1) x).

End run.
End pipeline.

(** The stage computation of scenario C: the carry passes through unchanged
    and is also emitted as the layer-wise output; nothing else is emitted. *)
Definition identity_stage {A : Type} : StageFn (A:=A) :=
  λ _ _ carry_tn _, (carry_tn, carry_tn, []).

(** ** Concrete inputs

    Scenario B of the specification: N = 3 stages and M = 2 microbatches,
    over integer blocks. *)

Definition example_cfg : Config :=
  {| num_layers := 3; num_microbatches := 2 |}.

Definition example_xs : list (list Z) :=
  [[11; 12]; [21; 22]; [31; 32]]%Z.

Definition example_split (key : Z) (num : nat) : list Z :=
  (λ i, key * 1000 + Z.of_nat i)%Z <$> seq 0 num.

Definition example_state : Nested (list Z) := [[1; 2; 3]]%Z.

(** One carry leaf of shape [2, 4]. *)
Definition example_carry : Nested (Tensor (A:=Z)) :=
  [Rows [4] [100; 200]%Z].

(** A second carry leaf, of shape [2]: fewer than two dimensions. *)
Definition example_carry_rank1 : Nested (Tensor (A:=Z)) :=
  [Rows [4] [100; 200]%Z; Rows [] [5; 6]%Z].

(** A stage computation that uses all of its arguments. *)
Definition example_stage : StageFn (A:=Z) :=
  λ state_n prng_key_tn carry_tn x_tn,
    ((λ v, v * 10 + default 0 (head state_n))%Z <$> carry_tn,
     prng_key_tn :: x_tn ++ carry_tn,
     state_n).

(** The loop of [_run] on the example carry with the identity stage. *)
Definition example_loop
  : result (LoopState * list (Outputs (list Z))) :=
  scan (scan_fn 0%Z example_cfg [] identity_stage)
    (state_t0 0%Z 3 example_carry (padded_carry 0%Z 3 example_carry))
    (zip (prng_keys example_split 7%Z 2 3) (unstack 4 (padded_xs 0%Z []))).

(** ** Microbatching

    [Pipeline._to_microbatches] and [Pipeline._from_microbatches] on inputs
    with a leading batch axis.  [jnp.reshape] raises when the batch size is
    not a multiple of the number of microbatches; [None] stands for that
    exception. *)

Section microbatches.
Context {A : Type}.
Variable cfg : Config.

(** [[batch_size, ...]] to [[M, microbatch_size, ...]]. *)
Definition reshape_and_transpose (x : list A) : option (list (list A)) :=
  let m := num_microbatches cfg in
  (* Keep batch partitioning along the 'microbatch_size' dim. *)
  if decide (m ≠ 0 ∧ length x `mod` m = 0) then
    Some (transpose m (unflatten2 (length x `div` m) m x))
  else None.

Definition _to_microbatches (inputs : Nested (list A))
  : option (Nested (list (list A))) :=
  mapM reshape_and_transpose inputs.

Definition transpose_and_reshape (x : list (list A)) : list A :=
  flatten2 (transpose (shape2 x).2 x).

Definition _from_microbatches (inputs : Nested (list (list A)))
  : Nested (list A) :=
  transpose_and_reshape <$> inputs.

End microbatches.

(** A batch of six examples. *)
Definition example_batch : list Z := [1; 2; 3; 4; 5; 6]%Z.

(** A pipeline-major array for N = 3, M = 2 with non-zero bubble entries. *)
Definition example_stage_outputs : list (list Z) :=
  [[11; 91; 92]; [12; 21; 93]; [94; 22; 31]; [95; 96; 32]]%Z.
(** * Properties *)

(** ** Index lemmas for the array primitives *)

Section array_lemmas.
Context {A : Type}.
Variable zero : A.
Implicit Types x : list (list A).
Implicit Types l : list A.

Lemma shaped_lookup x r c i row :
  shaped r c x → x !! i = Some row → length row = c.
Proof. intros [_ Hc] E. rewrite Forall_lookup in Hc. eauto. Qed.

Lemma shape2_shaped x r c : shaped r c x → 1 ≤ r → shape2 x = (r, c).
Proof.
  intros [Hr Hc] Hpos. unfold shape2. destruct Hc as [|row x Hrow _]; simpl in *.
  - lia.
  - by rewrite Hr, Hrow.
Qed.

Lemma lookup2_is_Some x r c i j :
  shaped r c x → i < r → j < c → is_Some (lookup2 x i j).
Proof.
  intros Hx Hi Hj. unfold lookup2.
  destruct (x !! i) as [row|] eqn:E.
  - simpl. apply lookup_lt_is_Some. by rewrite (shaped_lookup _ _ _ _ _ Hx E).
  - apply lookup_ge_None in E. destruct Hx. lia.
Qed.

Lemma shaped_ext x y r c :
  shaped r c x → shaped r c y →
  (∀ i j, i < r → j < c → lookup2 x i j = lookup2 y i j) → x = y.
Proof.
  intros Hx Hy Hxy. pose proof Hx as [Hxr _]. pose proof Hy as [Hyr _].
  apply list_eq_same_length with r; [done..|].
  intros i rx ry Hi Ex Ey.
  pose proof (shaped_lookup _ _ _ _ _ Hx Ex).
  pose proof (shaped_lookup _ _ _ _ _ Hy Ey).
  apply list_eq_same_length with c; [done..|].
  intros j vx vy Hj Evx Evy.
  specialize (Hxy i j Hi Hj). unfold lookup2 in Hxy.
  rewrite Ex, Ey in Hxy. simpl in Hxy. congruence.
Qed.

Lemma lookup_flatten2 x c i j :
  Forall (λ row, length row = c) x → j < c →
  flatten2 x !! (i * c + j) = lookup2 x i j.
Proof.
  intros Hc Hj. unfold flatten2, lookup2. apply option_eq. intros v.
  rewrite (join_lookup_Some_same_length' c) by done.
  destruct (x !! i) as [row|]; simpl.
  - split; [by intros (? & [= <-] & ?)|by eauto].
  - split; [by intros (? & ? & ?)|done].
Qed.

Lemma length_flatten2 x r c : shaped r c x → length (flatten2 x) = r * c.
Proof.
  intros [<- Hc]. unfold flatten2.
  induction Hc as [|row x Hrow _ IH]; simpl; [done|].
  by rewrite length_app, Hrow, IH.
Qed.

Lemma shaped_unflatten2 r c l :
  length l = r * c → shaped r c (unflatten2 r c l).
Proof.
  unfold shaped, unflatten2. rewrite length_reshape, length_replicate.
  intros Hl. split; [done|]. revert l Hl.
  induction r as [|r IH]; intros l Hl; simpl; constructor.
  - rewrite length_take. lia.
  - apply IH. rewrite length_drop. lia.
Qed.

Lemma lookup2_unflatten2 r c l i j :
  length l = r * c → i < r → j < c →
  lookup2 (unflatten2 r c l) i j = l !! (i * c + j).
Proof.
  intros Hl Hi Hj. unfold lookup2, unflatten2.
  rewrite sublist_lookup_reshape by (done || lia).
  unfold sublist_lookup. rewrite option_guard_True.
  - simpl. by rewrite lookup_take_lt, lookup_drop.
  - rewrite Hl. nia.
Qed.

Lemma flatten2_unflatten2 r c l :
  length l = r * c → flatten2 (unflatten2 r c l) = l.
Proof.
  intros Hl. unfold flatten2, unflatten2.
  apply join_reshape. by rewrite sum_list_replicate.
Qed.

Lemma unflatten2_flatten2 r c x :
  shaped r c x → unflatten2 r c (flatten2 x) = x.
Proof.
  intros [<- Hc]. unfold flatten2, unflatten2.
  induction Hc as [|row x Hrow _ IH]; simpl; [done|].
  f_equal.
  - by rewrite <- Hrow, take_app_length.
  - by rewrite <- Hrow, drop_app_length, Hrow.
Qed.

Lemma length_transpose c x :
  Forall (λ row, length row = c) x → length (transpose c x) = c.
Proof.
  induction 1 as [|row x Hrow _ IH]; simpl.
  - by rewrite length_replicate.
  - rewrite length_zip_with. lia.
Qed.

Lemma lookup_transpose c x j :
  Forall (λ row, length row = c) x → j < c →
  ∃ col, transpose c x !! j = Some col ∧ length col = length x
         ∧ ∀ i, col !! i = lookup2 x i j.
Proof.
  intros Hc Hj. induction Hc as [|row x Hrow _ (col & Ecol & Hlen & Hcol)];
    simpl.
  - exists []. by rewrite lookup_replicate_2.
  - destruct (lookup_lt_is_Some_2 row j) as [v Ev]; [lia|].
    exists (v :: col). rewrite lookup_zip_with, Ev, Ecol. simpl.
    split_and!; [done|by rewrite Hlen|].
    intros [|i]; unfold lookup2; simpl; [done|]. apply Hcol.
Qed.

Lemma shaped_transpose r c x : shaped r c x → shaped c r (transpose c x).
Proof.
  intros [Hr Hc]. split; [by apply length_transpose|].
  apply Forall_lookup. intros j col Hj.
  assert (j < c) as Hlt.
  { apply lookup_lt_Some in Hj. by rewrite length_transpose in Hj. }
  destruct (lookup_transpose c x j Hc Hlt) as (col' & E & Hlen & _).
  congruence.
Qed.

Lemma lookup2_transpose r c x i j :
  shaped r c x → j < c → lookup2 (transpose c x) j i = lookup2 x i j.
Proof.
  intros [Hr Hc] Hj.
  destruct (lookup_transpose c x j Hc Hj) as (col & E & _ & Hcol).
  unfold lookup2 at 1. rewrite E. simpl. apply Hcol.
Qed.

Lemma transpose_zip_cons r l x :
  length l = length x → Forall (λ col, length col = r) x →
  transpose (S r) (zip_with cons l x) = l :: transpose r x.
Proof.
  intros Hlen Hx. revert l Hlen.
  induction Hx as [|col x Hcol _ IH]; intros [|a l] Hlen;
    simplify_eq/=; [done|].
  by rewrite IH.
Qed.

Lemma transpose_transpose r c x :
  shaped r c x → transpose r (transpose c x) = x.
Proof.
  intros [<- Hc]. induction Hc as [|row x Hrow Hc IH]; simpl.
  - by destruct c.
  - pose proof (shaped_transpose (length x) c x (conj eq_refl Hc)) as [Hl Hf].
    rewrite transpose_zip_cons by (done || congruence).
    by rewrite IH.
Qed.

Lemma slice_stop_neg (k : nat) l :
  1 ≤ k → slice_stop (- Z.of_nat k) l = take (length l - k) l.
Proof.
  intros Hk. unfold slice_stop.
  destruct (Z.ltb_spec (- Z.of_nat k) 0) as [_|?]; [|lia].
  by rewrite Z.opp_involutive, Nat2Z.id.
Qed.

Lemma slice_stop_nonneg (k : nat) l : slice_stop (Z.of_nat k) l = take k l.
Proof.
  unfold slice_stop.
  destruct (Z.ltb_spec (Z.of_nat k) 0) as [?|_]; [lia|].
  by rewrite Nat2Z.id.
Qed.

Lemma shaped_pad_axis1 r c k x :
  shaped r c x → shaped r (c + k) (pad_axis1 zero k x).
Proof.
  intros [Hr Hc]. split; unfold pad_axis1; [by rewrite length_fmap|].
  apply Forall_fmap. eapply Forall_impl; [done|]. simpl.
  intros row Hrow. by rewrite length_app, length_replicate, Hrow.
Qed.

Lemma lookup2_pad_axis1 r c k x i j :
  shaped r c x → i < r → j < c + k →
  lookup2 (pad_axis1 zero k x) i j
  = if decide (j < c) then lookup2 x i j else Some zero.
Proof.
  intros Hx Hi Hj. unfold lookup2, pad_axis1. rewrite list_lookup_fmap.
  destruct (x !! i) as [row|] eqn:E; simpl.
  - pose proof (shaped_lookup _ _ _ _ _ Hx E) as Hrow.
    case_decide.
    + by rewrite lookup_app_l by lia.
    + rewrite lookup_app_r by lia. apply lookup_replicate_2. lia.
  - apply lookup_ge_None in E. destruct Hx. lia.
Qed.

(** The padded and flattened array ends with the [k] zeros that the slice
    [x[:-k]] removes. *)
Lemma flatten2_pad_axis1_tail k x :
  x ≠ [] →
  take (length (flatten2 (pad_axis1 zero k x)) - k)
       (flatten2 (pad_axis1 zero k x)) ++ replicate k zero
  = flatten2 (pad_axis1 zero k x).
Proof.
  intros Hx. unfold flatten2, pad_axis1.
  destruct x as [|row x _] using rev_ind; [done|].
  rewrite fmap_app, join_app. simpl. rewrite app_nil_r, !app_assoc.
  rewrite length_app, length_replicate, Nat.add_sub.
  by rewrite take_app_length.
Qed.

End array_lemmas.

(** ** The layout transposes *)

Section layout.
Context {A : Type}.
Variable zero : A.
Implicit Types x : list (list A).

Lemma transpose_to_unfold x n m :
  shaped n m x → 1 ≤ n →
  transpose_to_pipeline_stage_inputs zero x
  = transpose (m + n - 1)
      (unflatten2 n (m + n - 1)
         (take (n * (m + n - 1)) (flatten2 (pad_axis1 zero n x)))).
Proof.
  intros Hx Hn. unfold transpose_to_pipeline_stage_inputs.
  rewrite (shape2_shaped x n m) by done.
  rewrite slice_stop_neg by done.
  rewrite (length_flatten2 _ n (m + n)) by by apply shaped_pad_axis1.
  do 3 f_equal. nia.
Qed.

Lemma shaped_transpose_to x n m :
  shaped n m x → 1 ≤ n →
  shaped (m + n - 1) n (transpose_to_pipeline_stage_inputs zero x).
Proof.
  intros Hx Hn. rewrite (transpose_to_unfold x n m) by done.
  apply shaped_transpose, shaped_unflatten2.
  rewrite length_take, (length_flatten2 _ n (m + n))
    by by apply shaped_pad_axis1.
  nia.
Qed.

Lemma lookup2_transpose_to x n m t i :
  shaped n m x → i < n → t < m + n - 1 →
  lookup2 (transpose_to_pipeline_stage_inputs zero x) t i
  = flatten2 (pad_axis1 zero n x) !! (i * (m + n - 1) + t).
Proof.
  intros Hx Hi Ht. rewrite (transpose_to_unfold x n m) by (done || lia).
  assert (length (take (n * (m + n - 1)) (flatten2 (pad_axis1 zero n x)))
          = n * (m + n - 1)) as Hlen.
  { rewrite length_take, (length_flatten2 _ n (m + n))
      by by apply shaped_pad_axis1.
    nia. }
  rewrite (lookup2_transpose n) by (by apply shaped_unflatten2 || done).
  rewrite lookup2_unflatten2 by done.
  apply lookup_take_lt. nia.
Qed.

Lemma lookup2_transpose_to_diagonal x n m i j :
  shaped n m x → i < n → j < m →
  lookup2 (transpose_to_pipeline_stage_inputs zero x) (i + j) i
  = lookup2 x i j.
Proof.
  intros Hx Hi Hj.
  rewrite (lookup2_transpose_to x n m) by (done || lia).
  replace (i * (m + n - 1) + (i + j)) with (i * (m + n) + j) by nia.
  pose proof (shaped_pad_axis1 zero n m n x Hx) as [_ Hpad].
  rewrite (lookup_flatten2 _ (m + n)) by (done || lia).
  rewrite (lookup2_pad_axis1 zero n m) by (done || lia).
  by rewrite decide_True.
Qed.

(** C1.  For an array [x] of shape [N, M, ...] with N, M >= 1 the result of
    [transpose_to_pipeline_stage_inputs] has shape [M + N - 1, N, ...], holds
    [x[i, j]] at position [(i + j, i)] for all valid [i], [j], and holds the
    zero block at every position [(t, i)] off the diagonal band, that is
    with [t - i] outside [0, M). *)
Theorem transpose_to_pipeline_stage_inputs_diagonal x n m :
  1 ≤ n → 1 ≤ m → shaped n m x →
  shaped (m + n - 1) n (transpose_to_pipeline_stage_inputs zero x)
  ∧ (∀ i j, i < n → j < m →
       is_Some (lookup2 x i j)
       ∧ lookup2 (transpose_to_pipeline_stage_inputs zero x) (i + j) i
         = lookup2 x i j)
  ∧ (∀ t i, t < m + n - 1 → i < n → ¬ (i ≤ t ∧ t - i < m) →
       lookup2 (transpose_to_pipeline_stage_inputs zero x) t i = Some zero).
Proof.
  intros Hn Hm Hx. split_and!.
  - by apply shaped_transpose_to.
  - intros i j Hi Hj. split; [by eapply lookup2_is_Some|].
    by apply (lookup2_transpose_to_diagonal x n m).
  - intros t i Ht Hi Hband.
    rewrite (lookup2_transpose_to x n m) by done.
    pose proof (shaped_pad_axis1 zero n m n x Hx) as [_ Hpad].
    destruct (decide (i ≤ t)) as [Hle|Hgt].
    + replace (i * (m + n - 1) + t) with (i * (m + n) + (t - i)) by nia.
      rewrite (lookup_flatten2 _ (m + n)) by (done || lia).
      rewrite (lookup2_pad_axis1 zero n m) by (done || lia).
      rewrite decide_False; [done|lia].
    + replace (i * (m + n - 1) + t)
        with ((i - 1) * (m + n) + (m + n + t - i)) by nia.
      rewrite (lookup_flatten2 _ (m + n)) by (done || lia).
      rewrite (lookup2_pad_axis1 zero n m) by (done || lia).
      rewrite decide_False; [done|lia].
Qed.

(** The inverse transpose reads the diagonal band: [x'[i, j] == x[i + j, i]]
    (the docstring of [transpose_from_pipeline_stage_outputs]). *)
Lemma lookup2_transpose_from y n m i j :
  1 ≤ n → 1 ≤ m → shaped (m + n - 1) n y → i < n → j < m →
  shaped n m (transpose_from_pipeline_stage_outputs zero y)
  ∧ lookup2 (transpose_from_pipeline_stage_outputs zero y) i j
    = lookup2 y (i + j) i.
Proof.
  intros Hn Hm Hy Hi Hj. unfold transpose_from_pipeline_stage_outputs.
  rewrite (shape2_shaped y (m + n - 1) n) by (done || lia).
  replace (Z.of_nat (m + n - 1) - Z.of_nat n + 1)%Z with (Z.of_nat m) by lia.
  replace (Z.of_nat m + Z.of_nat n)%Z with (Z.of_nat (m + n)) by lia.
  rewrite Nat2Z.id.
  pose proof (shaped_transpose _ _ _ Hy) as Hty.
  assert (length (flatten2 (transpose n y) ++ replicate n zero) = n * (m + n))
    as Hlen.
  { rewrite length_app, length_replicate,
      (length_flatten2 _ n (m + n - 1)) by done. nia. }
  pose proof (shaped_unflatten2 n (m + n) _ Hlen) as Hu.
  split.
  - destruct Hu as [Hur Huc]. split; [by rewrite length_fmap|].
    apply Forall_fmap. eapply Forall_impl; [done|]. simpl.
    intros row Hrow. rewrite slice_stop_nonneg, length_take. lia.
  - unfold lookup2 at 1. rewrite list_lookup_fmap.
    destruct (_ !! i) as [row|] eqn:E; simpl.
    + rewrite slice_stop_nonneg, lookup_take_lt by done.
      transitivity (lookup2 (unflatten2 n (m + n)
        (flatten2 (transpose n y) ++ replicate n zero)) i j).
      { unfold lookup2. by rewrite E. }
      rewrite lookup2_unflatten2 by (done || lia).
      rewrite lookup_app_l
        by (rewrite (length_flatten2 _ n (m + n - 1)) by done; nia).
      replace (i * (m + n) + j) with (i * (m + n - 1) + (i + j)) by nia.
      destruct Hty as [_ Htc].
      rewrite (lookup_flatten2 _ (m + n - 1)) by (done || lia).
      by apply (lookup2_transpose (m + n - 1)).
    + apply lookup_ge_None in E. destruct Hu as [Hur _]. lia.
Qed.

(** C2.  For an array [x] of shape [N, M, ...] with N, M >= 1,
    transposing to the pipeline-major layout and back returns [x] itself:
    the round trip only moves blocks and is exact. *)
Theorem transpose_round_trip x n m :
  1 ≤ n → 1 ≤ m → shaped n m x →
  transpose_from_pipeline_stage_outputs zero
    (transpose_to_pipeline_stage_inputs zero x) = x.
Proof.
  intros Hn Hm Hx.
  pose proof (shaped_transpose_to x n m Hx Hn) as Hy.
  unfold transpose_from_pipeline_stage_outputs.
  rewrite (shape2_shaped _ (m + n - 1) n) by (done || lia).
  replace (Z.of_nat (m + n - 1) - Z.of_nat n + 1)%Z with (Z.of_nat m) by lia.
  replace (Z.of_nat m + Z.of_nat n)%Z with (Z.of_nat (m + n)) by lia.
  rewrite Nat2Z.id.
  pose proof (shaped_pad_axis1 zero n m n x Hx) as Hpad.
  pose proof (length_flatten2 _ _ _ Hpad) as Hflat.
  rewrite (transpose_to_unfold x n m) by done.
  rewrite (transpose_transpose n)
    by (apply shaped_unflatten2; rewrite length_take; nia).
  rewrite flatten2_unflatten2 by (rewrite length_take; nia).
  replace (n * (m + n - 1))
    with (length (flatten2 (pad_axis1 zero n x)) - n) by nia.
  rewrite flatten2_pad_axis1_tail by (destruct Hx, x; simpl in *; [lia|done]).
  rewrite unflatten2_flatten2 by done.
  unfold pad_axis1. rewrite <- list_fmap_compose.
  rewrite <- (list_fmap_id x) at 2.
  apply Forall_fmap_ext. destruct Hx as [_ Hc].
  eapply Forall_impl; [done|]. simpl. intros row Hrow.
  by rewrite slice_stop_nonneg, <- Hrow, take_app_length.
Qed.

End layout.

(** ** The validity mask *)

Lemma wrap32_small (z : Z) : (- 2 ^ 31 ≤ z < 2 ^ 31)%Z → wrap32 z = z.
Proof. intros Hz. unfold wrap32. rewrite Z.mod_small; lia. Qed.

Section counting.
Context {B : Type}.
Implicit Types P : nat → nat → bool.

Lemma length_bind_if (p : nat → bool) (g : nat → B) (b : bool) (l : list nat) :
  Forall (λ k, p k = b) l →
  length (k ← l; if p k then [g k] else []) = if b then length l else 0.
Proof.
  induction 1 as [|k l Hk _ IH]; [by destruct b|].
  rewrite bind_cons, length_app, IH, Hk. by destruct b.
Qed.

Lemma length_bind_app (g h : nat → list B) (l : list nat) :
  length (k ← l; g k ++ h k) = length (l ≫= g) + length (l ≫= h).
Proof.
  induction l as [|k l IH]; [done|].
  rewrite !bind_cons, !length_app, IH. lia.
Qed.

Lemma length_bind_const (g : nat → list B) (c : nat) (l : list nat) :
  Forall (λ k, length (g k) = c) l → length (l ≫= g) = length l * c.
Proof.
  induction 1 as [|k l Hk _ IH]; [done|].
  rewrite bind_cons, length_app, IH, Hk. simpl. lia.
Qed.

(** Counting the marked pairs timestep by timestep or stage by stage gives
    the same number. *)
Lemma length_pairs_swap P (g : nat → nat → B) (ts stages : list nat) :
  length (t ← ts; i ← stages; if P i t then [g i t] else [])
  = length (i ← stages; t ← ts; if P i t then [g i t] else []).
Proof.
  induction ts as [|t ts IH].
  - simpl. symmetry. by rewrite (length_bind_const _ 0); [lia|apply Forall_true].
  - rewrite bind_cons, length_app, IH.
    by rewrite <- length_bind_app.
Qed.

End counting.

Section mask.
Context {A : Type}.
Variable cfg : Config.
Local Abbreviation N := (num_layers cfg).
Local Abbreviation M := (num_microbatches cfg).
Implicit Types per_stage_values : list A.

Lemma _is_valid_stage_ok per_stage_values (t : Z) :
  length per_stage_values = N →
  _is_valid_stage cfg per_stage_values t
  = inr ((λ i : nat, bool_decide (Z.of_nat i ≤ t)%Z
                     && bool_decide (wrap32 (t - Z.of_nat i) < Z.of_nat M)%Z)
           <$> seq 0 N).
Proof.
  intros Hlen. unfold _is_valid_stage, _num_stages, _num_microbatches.
  rewrite decide_False by (by intros []).
  unfold mret, result_ret. by rewrite <- list_fmap_compose.
Qed.

Lemma _is_valid_stage_in_range per_stage_values (t : nat) :
  length per_stage_values = N → (Z.of_nat (M + N - 1) ≤ 2 ^ 31)%Z →
  t < M + N - 1 →
  _is_valid_stage cfg per_stage_values (Z.of_nat t)
  = inr ((λ i, bool_decide (i ≤ t ∧ t - i < M)) <$> seq 0 N).
Proof.
  intros Hlen Hfit Ht. rewrite _is_valid_stage_ok by done. f_equal.
  apply list_eq. intros i. rewrite !list_lookup_fmap.
  destruct (seq 0 N !! i) as [i'|] eqn:E; simpl; [|done].
  apply lookup_seq in E as [-> Hi]. simpl. f_equal.
  rewrite wrap32_small by lia.
  rewrite <- bool_decide_and. apply bool_decide_ext. lia.
Qed.

Lemma valid_pairs_in_range per_stage_values :
  length per_stage_values = N → (Z.of_nat (M + N - 1) ≤ 2 ^ 31)%Z →
  valid_pairs cfg per_stage_values
  = (t ← seq 0 (M + N - 1); i ← seq 0 N;
     if bool_decide (i ≤ t ∧ t - i < M) then [(i, t)] else []).
Proof.
  intros Hlen Hfit. unfold valid_pairs, _num_stages, _num_microbatches.
  apply Forall_bind_ext, Forall_forall. intros t Ht.
  apply elem_of_seq in Ht.
  rewrite _is_valid_stage_in_range by (done || lia).
  apply Forall_bind_ext, Forall_forall. intros i Hi.
  apply elem_of_seq in Hi.
  by rewrite list_lookup_fmap, lookup_seq_lt by lia.
Qed.

Lemma valid_timesteps_of_stage (i : nat) :
  i < N →
  length (t ← seq 0 (M + N - 1);
          if bool_decide (i ≤ t ∧ t - i < M) then [(i, t)] else []) = M.
Proof.
  intros Hi.
  replace (M + N - 1) with (i + (M + (N - 1 - i))) by lia.
  rewrite !seq_app, !bind_app, !length_app. simpl.
  rewrite (length_bind_if _ _ false), (length_bind_if _ _ true),
    (length_bind_if _ _ false).
  - rewrite length_seq. lia.
  - apply Forall_forall. intros t Ht. apply elem_of_seq in Ht.
    apply bool_decide_eq_false. lia.
  - apply Forall_forall. intros t Ht. apply elem_of_seq in Ht.
    apply bool_decide_eq_true. lia.
  - apply Forall_forall. intros t Ht. apply elem_of_seq in Ht.
    apply bool_decide_eq_false. lia.
Qed.

(** C3.  With N >= 1 stages and M >= 1 microbatches (the timestep being a
    32-bit integer, M + N - 1 is at most 2^31), at every timestep
    0 <= t < M + N - 1 the mask of [_is_valid_stage] holds at stage
    0 <= i < N the value of [i <= t and t - i < M]; over the whole loop
    exactly N * M (stage, timestep) pairs are valid; and for N = 3, M = 2
    these are the pairs (0,0), (1,1), (0,1), (2,2), (1,2), (2,3). *)
Theorem _is_valid_stage_correct per_stage_values :
  1 ≤ N → 1 ≤ M → (Z.of_nat (M + N - 1) ≤ 2 ^ 31)%Z →
  length per_stage_values = N →
  (∀ t i : nat, t < M + N - 1 → i < N →
     ∃ mask, _is_valid_stage cfg per_stage_values (Z.of_nat t) = inr mask
             ∧ length mask = N
             ∧ mask !! i = Some (bool_decide (i ≤ t ∧ t - i < M)))
  ∧ length (valid_pairs cfg per_stage_values) = N * M
  ∧ (N = 3 → M = 2 →
     valid_pairs cfg per_stage_values
     ≡ₚ [(0, 0); (1, 1); (0, 1); (2, 2); (1, 2); (2, 3)]).
Proof.
  intros HN HM Hfit Hlen. split_and!.
  - intros t i Ht Hi. eexists. split; [by apply _is_valid_stage_in_range|].
    rewrite length_fmap, length_seq. split; [done|].
    by rewrite list_lookup_fmap, lookup_seq_lt.
  - rewrite valid_pairs_in_range by done.
    rewrite (length_pairs_swap (λ i t, bool_decide (i ≤ t ∧ t - i < M)) pair).
    rewrite (length_bind_const _ M); [by rewrite length_seq|].
    apply Forall_forall. intros i Hi. apply elem_of_seq in Hi.
    apply valid_timesteps_of_stage. lia.
  - intros HN3 HM2. rewrite valid_pairs_in_range by done.
    rewrite HN3, HM2. vm_compute.
    apply perm_skip. etrans; [apply perm_swap|]. do 2 apply perm_skip.
    apply perm_swap.
Qed.

End mask.

(** ** The carry/input selector *)

Section where_lemmas.
Context {A : Type}.
Implicit Types a b : list A.
Implicit Types c : list bool.

Lemma lookup_where c a b i :
  where_ c a b !! i
  = (ci ← c !! i; ai ← a !! i; bi ← b !! i;
     Some (if ci : bool then ai else bi)).
Proof.
  unfold where_. rewrite !lookup_zip_with.
  destruct (c !! i) as [ci|]; simpl; [|done].
  destruct (a !! i) as [ai|]; simpl; [|done].
  by destruct (b !! i) as [bi|].
Qed.

Lemma length_where c a b :
  length (where_ c a b) = length c `min` (length a `min` length b).
Proof. unfold where_. by rewrite !length_zip_with. Qed.

Lemma where_same c a : length c = length a → where_ c a a = a.
Proof.
  intros Hlen. apply list_eq. intros i. rewrite lookup_where.
  destruct (a !! i) as [ai|] eqn:Ea; simpl.
  - destruct (lookup_lt_is_Some_2 c i) as [ci ->].
    { apply lookup_lt_Some in Ea. lia. }
    simpl. by destruct ci.
  - by destruct (c !! i).
Qed.

Lemma dynamic_index_in_range (x : list A) (i : Z) :
  (0 ≤ i < Z.of_nat (length x))%Z → dynamic_index x i = x !! Z.to_nat i.
Proof.
  intros Hi. unfold dynamic_index.
  destruct (Z.ltb_spec i 0) as [?|_]; [lia|]. f_equal. lia.
Qed.

End where_lemmas.

Section selector.
Context {A : Type}.
Variable zero : A.
Variable cfg : Config.
Local Abbreviation N := (num_layers cfg).
Local Abbreviation M := (num_microbatches cfg).

Lemma select_state_or_input_lookup (t : nat) (v_input_t : list (list A))
    (v_carry_output_t_1 row : list A) (k : nat) :
  1 ≤ M → length v_input_t = M →
  v_input_t !! (t `mod` M) = Some row →
  select_state_or_input zero cfg (Z.of_nat t) v_input_t v_carry_output_t_1
  = where_ ((λ i, bool_decide (i = 0)) <$> seq 0 (length v_carry_output_t_1))
      row (take (length v_carry_output_t_1) (zero :: v_carry_output_t_1)).
Proof.
  intros HM Hlen Hrow. unfold select_state_or_input, _num_microbatches.
  rewrite dynamic_index_in_range.
  - rewrite <- Nat2Z.inj_mod, Nat2Z.id, Hrow. simpl.
    by rewrite length_take, length_cons, Nat.min_l by lia.
  - rewrite Hlen. apply Z.mod_pos_bound. lia.
Qed.

Lemma shift_right (v_carry_output_t_1 : list A) :
  length v_carry_output_t_1 = N → 1 ≤ N →
  take (length v_carry_output_t_1) (zero :: v_carry_output_t_1)
  = zero :: take (N - 1) v_carry_output_t_1.
Proof.
  intros Hlen HN. rewrite Hlen. destruct N; [lia|]. simpl.
  by rewrite Nat.sub_0_r.
Qed.

Lemma select_state_or_input_spec (t : nat) (v_input_t : list (list A))
    (v_carry_output_t_1 : list A) :
  1 ≤ N → 1 ≤ M → shaped M N v_input_t → length v_carry_output_t_1 = N →
  length (select_state_or_input zero cfg (Z.of_nat t) v_input_t
            v_carry_output_t_1) = N
  ∧ ∀ k, k < N →
      select_state_or_input zero cfg (Z.of_nat t) v_input_t
        v_carry_output_t_1 !! k
      = if decide (k = 0) then lookup2 v_input_t (t `mod` M) 0
        else v_carry_output_t_1 !! (k - 1).
Proof.
  intros HN HM Hshape Hlen.
  destruct (lookup_lt_is_Some_2 v_input_t (t `mod` M)) as [row Hrow].
  { destruct Hshape as [-> _]. apply Nat.mod_upper_bound. lia. }
  pose proof (shaped_lookup _ _ _ _ _ Hshape Hrow) as Hrowlen.
  rewrite (select_state_or_input_lookup t _ _ row) by (done || by destruct Hshape).
  rewrite shift_right, Hlen by done. split.
  { rewrite length_where, length_fmap, length_seq, length_cons, length_take.
    lia. }
  intros k Hk. rewrite lookup_where, list_lookup_fmap, lookup_seq_lt by done.
  simpl. destruct (lookup_lt_is_Some_2 row k) as [v Hv]; [lia|].
  rewrite Hv. simpl. destruct k as [|k]; simpl.
  - unfold lookup2. rewrite Hrow. simpl. by rewrite Hv.
  - rewrite Nat.sub_0_r, lookup_take_lt by lia.
    by destruct (lookup_lt_is_Some_2 v_carry_output_t_1 k) as [w ->]; [lia|].
Qed.

(** C5.  At timestep [t] every leaf of the stage input is the selection
    between the current microbatch row [per_stage_inputs[t mod M]] and the
    previous carry output shifted right by one along the stage axis (a zero
    block enters at index 0, the last stage's output drops out): stage 0
    receives [per_stage_inputs[t mod M][0]] and every stage 0 < k < N
    receives [carry_output_t_1[k - 1]]. *)
Theorem _compute_carry_input_shift (per_stage_inputs : list (list (list A)))
    (carry_output_t_1 : list (list A)) (t leaf : nat)
    (v_input_t : list (list A)) (v_carry_output_t_1 : list A) :
  1 ≤ N → 1 ≤ M →
  per_stage_inputs !! leaf = Some v_input_t → shaped M N v_input_t →
  carry_output_t_1 !! leaf = Some v_carry_output_t_1 →
  length v_carry_output_t_1 = N →
  ∃ row stage_input,
    v_input_t !! (t `mod` M) = Some row
    ∧ _compute_carry_input zero cfg per_stage_inputs carry_output_t_1
        (Z.of_nat t) !! leaf = Some stage_input
    ∧ length stage_input = N
    ∧ is_Some (stage_input !! 0)
    ∧ stage_input !! 0 = lookup2 v_input_t (t `mod` M) 0
    ∧ (∀ k, 0 < k < N → stage_input !! k = v_carry_output_t_1 !! (k - 1))
    ∧ take (length v_carry_output_t_1) (zero :: v_carry_output_t_1)
      = zero :: take (N - 1) v_carry_output_t_1
    ∧ stage_input
      = where_ ((λ i, bool_decide (i = 0)) <$> seq 0 N) row
          (zero :: take (N - 1) v_carry_output_t_1).
Proof.
  intros HN HM Hin Hshape Hcarry Hlen.
  destruct (lookup_lt_is_Some_2 v_input_t (t `mod` M)) as [row Hrow].
  { destruct Hshape as [-> _]. apply Nat.mod_upper_bound. lia. }
  pose proof (shift_right _ Hlen HN) as Hshift.
  destruct (select_state_or_input_spec t v_input_t v_carry_output_t_1)
    as [Hout Hk]; [done..|].
  rewrite (select_state_or_input_lookup t _ _ row) in Hout, Hk
    by (done || by destruct Hshape).
  rewrite Hshift, Hlen in Hout, Hk.
  exists row, (where_ ((λ i, bool_decide (i = 0)) <$> seq 0 N) row
                 (zero :: take (N - 1) v_carry_output_t_1)).
  split; [done|]. split.
  { unfold _compute_carry_input. rewrite lookup_zip_with, Hin, Hcarry. simpl.
    f_equal. rewrite (select_state_or_input_lookup t _ _ row)
      by (done || by destruct Hshape).
    by rewrite Hshift, Hlen. }
  split_and!; [done| | | |done|done].
  - apply lookup_lt_is_Some. lia.
  - by rewrite Hk by lia.
  - intros k [Hk0 HkN]. rewrite Hk by done. by rewrite decide_False by lia.
Qed.

End selector.

(** ** The scheduler loop *)

Ltac result_simpl :=
  simpl in *;
  cbv beta iota delta [mret result_ret mbind result_bind raise] in *;
  simpl in *.

Section monad_lemmas.
Context {C X Y : Type}.
Implicit Types f : C → X → result (C * Y).

Lemma mapM_inr {T U : Type} (f : T → result U) (g : T → U) (l : list T) :
  Forall (λ x, f x = inr (g x)) l → mapM f l = inr (g <$> l).
Proof.
  induction 1 as [|x l Hx _ IH]; [done|].
  simpl. rewrite Hx. result_simpl. by rewrite IH.
Qed.

Lemma scan_app f init xs1 xs2 c ys1 :
  scan f init xs1 = inr (c, ys1) →
  scan f init (xs1 ++ xs2)
  = '(c', ys2) ← scan f c xs2; mret (c', ys1 ++ ys2).
Proof.
  revert init ys1. induction xs1 as [|x xs1 IH]; intros init ys1 Hscan.
  - result_simpl. simplify_eq. by destruct (scan f c xs2) as [?|[??]].
  - result_simpl. destruct (f init x) as [?|[c1 y]]; simplify_eq.
    destruct (scan f c1 xs1) as [?|[c2 ys]] eqn:E; simplify_eq.
    rewrite (IH _ _ E). by destruct (scan f c xs2) as [?|[??]].
Qed.

(** A loop invariant [Inv], indexed by the number of steps taken, and a
    property [R] of the record emitted by each step. *)
Lemma scan_invariant f (Inv : nat → C → Prop) (R : nat → Y → Prop) xs init :
  Inv 0 init →
  (∀ k c x, xs !! k = Some x → Inv k c →
     ∃ c' y, f c x = inr (c', y) ∧ Inv (S k) c' ∧ R k y) →
  ∃ c ys, scan f init xs = inr (c, ys) ∧ Inv (length xs) c
          ∧ length ys = length xs ∧ ∀ k y, ys !! k = Some y → R k y.
Proof.
  revert Inv R init. induction xs as [|x xs IH]; intros Inv R init H0 Hstep.
  - exists init, []. split_and!; [done..|]. by intros ??.
  - destruct (Hstep 0 init x) as (c1 & y & Hf & Hinv & Hr); [done..|].
    destruct (IH (λ k, Inv (S k)) (λ k, R (S k)) c1) as (c & ys & E & ? & ? & Hys).
    { done. }
    { intros k c2 x2 Hk Hc2. by apply (Hstep (S k)). }
    exists c, (y :: ys). simpl. rewrite Hf. result_simpl. rewrite E.
    split_and!; [done|done|by f_equal|].
    intros [|k] y'; simpl; [by intros [= <-]|apply Hys].
Qed.

End monad_lemmas.

Section scheduler.
Context {A : Type}.
Variable zero : A.
Variable random_split : A → nat → list A.
Variable cfg : Config.
Variable layer_state : list (list A).
Variable prng_key : A.
Variable fn : StageFn (A:=A).
Local Abbreviation N := (num_layers cfg).
Local Abbreviation step := (scan_fn zero cfg layer_state fn).
Local Abbreviation run := (_run zero random_split cfg layer_state prng_key fn).
Implicit Types input_carry : list (@Tensor A).
Implicit Types leaf : @Tensor A.

Lemma carry_shaped_Rows m input_carry leaf :
  carry_shaped m input_carry → leaf ∈ input_carry →
  ∃ inner rows, leaf = Rows inner rows ∧ length rows = m.
Proof.
  intros [_ Hall] Hin. rewrite Forall_forall in Hall.
  destruct (Hall _ Hin) as [Hnd Hhd].
  destruct leaf as [v|inner rows]; simplify_eq/=; eauto.
Qed.

Lemma pad_carry_ok m input_carry :
  1 ≤ N → carry_shaped m input_carry →
  mapM (pad_carry zero N) input_carry = inr (padded_carry zero N input_carry).
Proof.
  intros HN Hc. apply mapM_inr, Forall_forall. intros leaf Hin.
  destruct (carry_shaped_Rows _ _ _ Hc Hin) as (inner & rows & -> & _).
  simpl. by rewrite decide_False by lia.
Qed.

Lemma scan_fn_ok carry_in xs_t :
  Forall (λ x, length x = N) layer_state →
  step carry_in xs_t
  = inr (mkLoopState (wrap32 (t carry_in + 1))
           (out_carry (vmap fn layer_state xs_t.1
              (_compute_carry_input zero cfg (per_stage_inputs carry_in)
                 (carry_output_t_1 carry_in) (t carry_in)) xs_t.2))
           (per_stage_inputs carry_in),
         vmap fn layer_state xs_t.1
           (_compute_carry_input zero cfg (per_stage_inputs carry_in)
              (carry_output_t_1 carry_in) (t carry_in)) xs_t.2).
Proof.
  intros Hstate. unfold scan_fn. destruct xs_t as [prng_key_t x_t].
  rewrite (mapM_inr _ id).
  - simpl. by rewrite list_fmap_id.
  - eapply Forall_impl; [done|]. simpl. intros x Hx.
    rewrite _is_valid_stage_ok by done. simpl.
    unfold stop_gradient. rewrite where_same; [done|].
    by rewrite length_fmap, length_seq.
Qed.

Lemma length_prng_keys m : length (prng_keys random_split prng_key m N) = m + N - 1.
Proof.
  unfold prng_keys, stack_and_reshape, unflatten2.
  by rewrite length_reshape, length_replicate.
Qed.

Lemma scan_inputs_ok m xs :
  1 ≤ N → Forall (shaped N m) xs →
  scan_inputs (prng_keys random_split prng_key m N) (padded_xs zero xs)
  = inr (zip (prng_keys random_split prng_key m N)
           (unstack (m + N - 1) (padded_xs zero xs))).
Proof.
  intros HN Hxs. unfold scan_inputs. rewrite length_prng_keys.
  rewrite (proj2 (forallb_forall _ _)); [done|].
  intros y Hy. apply list_elem_of_In in Hy. unfold padded_xs in Hy.
  apply list_elem_of_fmap in Hy as (x & -> & Hx).
  rewrite Forall_forall in Hxs. apply bool_decide_eq_true.
  by destruct (shaped_transpose_to zero x N m (Hxs x Hx) HN).
Qed.

Lemma length_scan_xs m xs :
  1 ≤ N → Forall (shaped N m) xs →
  length (zip (prng_keys random_split prng_key m N)
            (unstack (m + N - 1) (padded_xs zero xs))) = m + N - 1.
Proof.
  intros HN Hxs. rewrite length_zip_with, length_prng_keys.
  unfold unstack. rewrite length_transpose; [lia|].
  unfold padded_xs. apply Forall_fmap. eapply Forall_impl; [done|]. simpl.
  intros x Hx. by destruct (shaped_transpose_to zero x N m Hx HN).
Qed.

(** Past its entry checks [_run] is the loop followed by the extraction. *)
Lemma _run_unfold m input_carry xs :
  1 ≤ N → carry_shaped m input_carry → Forall (shaped N m) (tree_leaves xs) →
  run (Some input_carry) xs
  = '(_, scan_ys) ←
      scan step (state_t0 zero N input_carry (padded_carry zero N input_carry))
        (zip (prng_keys random_split prng_key m N)
           (unstack (m + N - 1) (padded_xs zero (tree_leaves xs))));
    mret (mkOutput
            (extract_outputs N <$> stack (out_carry <$> scan_ys))
            (transpose_from_pipeline_stage_outputs zero
               <$> stack (out_y <$> scan_ys))
            (transpose_from_pipeline_stage_outputs zero
               <$> stack (out_collection <$> scan_ys))).
Proof.
  intros HN Hc Hxs. unfold _run. simpl.
  destruct input_carry as [|leaf0 input_carry]; [by destruct Hc|].
  destruct (carry_shaped_Rows m (leaf0 :: input_carry) leaf0 Hc)
    as (inner & rows & -> & Hrows); [by left|].
  pose proof Hc as [_ Hall]. apply Forall_cons in Hall as [[Hnd _] _].
  rewrite decide_False by lia.
  unfold _num_stages. rewrite (pad_carry_ok m) by done.
  cbn [shape head default]. rewrite Hrows.
  change (match xs with Some xs0 => xs0 | None => [] end) with (tree_leaves xs).
  change (inr ?x ≫= ?f) with (f x). cbv beta.
  by rewrite scan_inputs_ok.
Qed.

End scheduler.

Section loop.
Context {A : Type}.
Variable zero : A.
Variable random_split : A → nat → list A.
Variable cfg : Config.
Variable layer_state : list (list A).
Variable prng_key : A.
Variable fn : StageFn (A:=A).
Local Abbreviation N := (num_layers cfg).
Local Abbreviation step := (scan_fn zero cfg layer_state fn).
Local Abbreviation run := (_run zero random_split cfg layer_state prng_key fn).
Implicit Types input_carry : list (@Tensor A).

Lemma loop_counter (psi : list (list (list A))) (T : nat)
    (scan_xs : list (list A * list (list A))) (init : LoopState) :
  Forall (λ x, length x = N) layer_state →
  (Z.of_nat T < 2 ^ 31)%Z → length scan_xs ≤ T →
  t init = 0%Z → per_stage_inputs init = psi →
  ∃ final scan_ys,
    scan step init scan_xs = inr (final, scan_ys)
    ∧ (t final = Z.of_nat (length scan_xs) ∧ per_stage_inputs final = psi)
    ∧ length scan_ys = length scan_xs
    ∧ ∀ k y, scan_ys !! k = Some y → True.
Proof.
  intros Hstate Hfit Hlen Ht0 Hpsi0.
  apply (scan_invariant step
    (λ k st, t st = Z.of_nat k ∧ per_stage_inputs st = psi) (λ _ _, True));
    [done|].
  intros k st xs_t Hk [Ht Hpsi]. apply lookup_lt_Some in Hk.
  rewrite scan_fn_ok by done. eexists _, _. split; [done|]. simpl.
  split_and!; [|done..]. rewrite Ht, wrap32_small; lia.
Qed.


(** C10.  A carry without leaves, [None] in particular, makes [_run] raise
    the ValueError "Expected at least one input leaf."; so whenever [_run]
    gets past that check the carry is not [None], and the branch that
    replaces a [None] carry by an empty one is never taken. *)
Theorem _run_requires_carry carry_opt xs :
  (tree_leaves carry_opt = [] →
   run carry_opt xs = inl (ValueError "Expected at least one input leaf."))
  ∧ run None xs = inl (ValueError "Expected at least one input leaf.")
  ∧ (run carry_opt xs ≠ inl (ValueError "Expected at least one input leaf.")
     → carry_opt ≠ None ∧ tree_leaves carry_opt ≠ []).
Proof.
  assert (tree_leaves carry_opt = [] →
    run carry_opt xs = inl (ValueError "Expected at least one input leaf."))
    as Hempty.
  { intros Hleaves. unfold _run. by rewrite Hleaves. }
  split_and!; [done|done|].
  intros Hrun. split.
  - intros ->. by apply Hrun, Hempty.
  - intros Hleaves. by apply Hrun, Hempty.
Qed.

(** C9, as the code has it.  The entry check of [_run] looks at the leaves
    of the carry and, beyond their number, at the first of them only: a
    carry without leaves and a carry whose first leaf has fewer than two
    dimensions are rejected on entry, whatever the stage computation and
    the other arguments are, with a ValueError that names the expectation
    and, for the first leaf, the shape that was found. *)
Theorem _run_rejects_carry carry_opt xs :
  tree_leaves carry_opt = []
  ∨ (∃ leaf0, head (tree_leaves carry_opt) = Some leaf0 ∧ ndim leaf0 < 2) →
  (tree_leaves carry_opt = [] →
   run carry_opt xs = inl (ValueError "Expected at least one input leaf."))
  ∧ (∀ leaf0,
       head (tree_leaves carry_opt) = Some leaf0 → ndim leaf0 < 2 →
       run carry_opt xs
       = inl (ValueError
           ("Expected leaves to have shape "
            +:+ "`[num_microbatches, microbatch_size, ...]`; "
            +:+ "instead, found " +:+ show_shape (shape leaf0) +:+ ".")))
  ∧ ∃ msg, run carry_opt xs = inl (ValueError msg).
Proof.
  intros Hbad.
  assert (tree_leaves carry_opt = [] →
    run carry_opt xs = inl (ValueError "Expected at least one input leaf."))
    as Hempty.
  { intros Hleaves. unfold _run. by rewrite Hleaves. }
  assert (∀ leaf0,
    head (tree_leaves carry_opt) = Some leaf0 → ndim leaf0 < 2 →
    run carry_opt xs
    = inl (ValueError
        ("Expected leaves to have shape "
         +:+ "`[num_microbatches, microbatch_size, ...]`; "
         +:+ "instead, found " +:+ show_shape (shape leaf0) +:+ ".")))
    as Hfirst.
  { intros leaf0 Hhead Hnd. unfold _run.
    destruct (tree_leaves carry_opt) as [|leaf rest]; [done|].
    injection Hhead as ->. by rewrite decide_True. }
  split_and!; [done..|].
  destruct Hbad as [Hleaves|(leaf0 & Hhead & Hnd)]; eauto.
Qed.

End loop.

(** ** The pipeline computes what the stages compute one after another *)

Section stacking.
Context {B : Type}.
Implicit Types leaves slices : list (list B).

Lemma unstack_lookup k leaves i :
  Forall (λ leaf, length leaf = k) leaves → i < k →
  ∃ slice, unstack k leaves !! i = Some slice
           ∧ length slice = length leaves
           ∧ ∀ l, slice !! l = lookup2 leaves l i.
Proof. apply lookup_transpose. Qed.

Lemma length_unstack k leaves :
  Forall (λ leaf, length leaf = k) leaves → length (unstack k leaves) = k.
Proof. apply length_transpose. Qed.

Lemma lookup2_None_r r c (x : list (list B)) i j :
  shaped r c x → c ≤ j → lookup2 x i j = None.
Proof.
  intros Hx Hj. unfold lookup2. destruct (x !! i) as [row|] eqn:E; [|done].
  simpl. apply lookup_ge_None. by rewrite (shaped_lookup _ _ _ _ _ Hx E).
Qed.

Lemma lookup2_None_l r c (x : list (list B)) i j :
  shaped r c x → r ≤ i → lookup2 x i j = None.
Proof.
  intros [Hr _] Hi. unfold lookup2.
  by rewrite (lookup_ge_None_2 x i) by lia.
Qed.

Lemma stack_shaped r c slices :
  1 ≤ r → shaped r c slices →
  shaped c r (stack slices)
  ∧ ∀ l i, lookup2 (stack slices) l i = lookup2 slices i l.
Proof.
  intros Hr Hs. unfold stack.
  assert (length (default [] (head slices)) = c) as ->.
  { by apply (shape2_shaped slices r c Hs) in Hr as [= _ ->]. }
  pose proof (shaped_transpose r c slices Hs) as Ht.
  split; [done|]. intros l i.
  destruct (decide (l < c)) as [Hl|Hl].
  - by apply (lookup2_transpose r).
  - rewrite (lookup2_None_l c r) by (done || lia).
    by rewrite (lookup2_None_r r c) by (done || lia).
Qed.

Lemma extract_outputs_spec (N : nat) (x : list (list B)) (rows : nat) :
  1 ≤ N → shaped rows N x → N ≤ rows →
  length (extract_outputs N x) = rows - (N - 1)
  ∧ ∀ j, extract_outputs N x !! j = lookup2 x (N - 1 + j) (N - 1).
Proof.
  intros HN Hx Hrows. unfold extract_outputs, squeeze1, lax_slice2.
  rewrite (shape2_shaped x rows N) by (done || lia). simpl.
  assert (shaped (rows - (N - 1)) 1 (drop (N - 1) <$> drop (N - 1) x)) as Hs.
  { destruct Hx as [Hlen Hrow]. split.
    - rewrite length_fmap, length_drop. lia.
    - apply Forall_fmap, Forall_drop. eapply Forall_impl; [done|]. simpl.
      intros row ?. rewrite length_drop. lia. }
  split.
  - change (mjoin ?y) with (flatten2 y).
    rewrite (length_flatten2 _ _ _ Hs). lia.
  - intros j. change (mjoin ?y) with (flatten2 y).
    replace j with (j * 1 + 0) at 1 by lia.
    destruct Hs as [_ Hs1]. rewrite (lookup_flatten2 _ 1) by (done || lia).
    unfold lookup2. rewrite list_lookup_fmap, lookup_drop.
    destruct (x !! (N - 1 + j)) as [row|]; simpl; [|done].
    rewrite lookup_drop. f_equal. lia.
Qed.

End stacking.

Section correctness.
Context {A : Type}.
Variable zero : A.
Variable random_split : A → nat → list A.
Variable cfg : Config.
Variable layer_state : list (list A).
Variable prng_key : A.
Variable fn : StageFn (A:=A).
Variable input_carry : list (@Tensor A).
Variable xs : option (list (list (list A))).
(** The numbers of leaves of the carry, of the layer-wise output and of the
    auxiliary outputs of [fn]. *)
Variables L ky ko : nat.

Local Abbreviation N := (num_layers cfg).
Local Abbreviation m := (num_microbatches cfg).
Local Abbreviation T := (m + N - 1).
Local Abbreviation KEYS := (prng_keys random_split prng_key m N).
Local Abbreviation PSI := (padded_carry zero N input_carry).
Local Abbreviation PXS := (padded_xs zero (tree_leaves xs)).
Local Abbreviation STATES := (unstack N layer_state).
Local Abbreviation MB := (unstack m (tensor_rows <$> input_carry)).
Local Abbreviation XS3 := (unstack m <$> unstack N (tree_leaves xs)).
Local Abbreviation ref := (stage_after_stage fn STATES KEYS MB XS3).
Local Abbreviation step := (scan_fn zero cfg layer_state fn).

Hypothesis HN : 1 ≤ N.
Hypothesis Hm : 1 ≤ m.
Hypothesis Hfit : (Z.of_nat T < 2 ^ 31)%Z.
Hypothesis Hsplit : ∀ k num, length (random_split k num) = num.
Hypothesis Hcarry : carry_shaped m input_carry.
Hypothesis HL : length input_carry = L.
Hypothesis Hxs : Forall (shaped N m) (tree_leaves xs).
Hypothesis Hstate : Forall (λ x, length x = N) layer_state.
Hypothesis Hfn :
  uniform_structure fn (length layer_state) L (length (tree_leaves xs)) ky ko.

Lemma shaped_KEYS : shaped T N KEYS.
Proof. apply shaped_unflatten2. by rewrite Hsplit. Qed.

Lemma vmap_spec (keys : list A) (vin xt : list (list A)) :
  length keys = N → shaped L N vin → Forall (λ x, length x = N) xt →
  length xt = length (tree_leaves xs) →
  shaped L N (out_carry (vmap fn layer_state keys vin xt))
  ∧ shaped ky N (out_y (vmap fn layer_state keys vin xt))
  ∧ shaped ko N (out_collection (vmap fn layer_state keys vin xt))
  ∧ ∀ i, i < N →
      ∃ s k c x,
        STATES !! i = Some s ∧ keys !! i = Some k
        ∧ length c = L ∧ (∀ l, c !! l = lookup2 vin l i)
        ∧ length x = length xt ∧ (∀ l, x !! l = lookup2 xt l i)
        ∧ slice_of (out_carry (vmap fn layer_state keys vin xt)) i
            (out_carry (vmap_fn fn s k c x))
        ∧ slice_of (out_y (vmap fn layer_state keys vin xt)) i
            (out_y (vmap_fn fn s k c x))
        ∧ slice_of (out_collection (vmap fn layer_state keys vin xt)) i
            (out_collection (vmap_fn fn s k c x)).
Proof.
  intros Hkeys [HvinL Hvin] Hxt HxtL. unfold vmap. rewrite Hkeys.
  set (outs := zip_with _ _ _).
  assert (∀ i, i < N →
    ∃ s k c x,
      (STATES !! i = Some s ∧ length s = length layer_state)
      ∧ keys !! i = Some k
      ∧ length c = L ∧ (∀ l, c !! l = lookup2 vin l i)
      ∧ length x = length xt ∧ (∀ l, x !! l = lookup2 xt l i)
      ∧ outs !! i = Some (vmap_fn fn s k c x)) as Houts.
  { intros i Hi.
    destruct (unstack_lookup N layer_state i Hstate Hi) as (s & Es & ? & _).
    destruct (lookup_lt_is_Some_2 keys i) as [k Ek]; [lia|].
    destruct (unstack_lookup N vin i Hvin Hi) as (c & Ec & Hclen & Hc).
    destruct (unstack_lookup N xt i Hxt Hi) as (x & Ex & Hxlen & Hx).
    exists s, k, c, x. split_and!; [done|done|done|congruence|done|done|done|].
    unfold outs. rewrite !lookup_zip_with, Es, Ek, Ec, Ex. done. }
  assert (length outs = N) as Hlen.
  { unfold outs. rewrite !length_zip_with, !length_unstack by done. lia. }
  assert (∀ (g : Outputs A → list A) (c : nat),
    (∀ s k cin x,
       length s = length layer_state → length cin = L →
       length x = length (tree_leaves xs) →
       length (g (vmap_fn fn s k cin x)) = c) →
    shaped c N (stack (g <$> outs))
    ∧ ∀ i o, outs !! i = Some o → slice_of (stack (g <$> outs)) i (g o))
    as Hstack.
  { intros g c Hg.
    assert (shaped N c (g <$> outs)) as Hs.
    { split; [by rewrite length_fmap|]. apply Forall_fmap, Forall_lookup.
      intros i o Eo. simpl.
      destruct (Houts i)
        as (s & k & cin & x & [_ ?] & _ & Hcin & _ & ? & _ & Eo').
      { apply lookup_lt_Some in Eo. lia. }
      rewrite Eo' in Eo. injection Eo as <-. apply Hg; congruence. }
    destruct (stack_shaped N c _ HN Hs) as [Hshape Hlook].
    split; [done|]. intros i o Eo l. rewrite Hlook. unfold lookup2.
    by rewrite list_lookup_fmap, Eo. }
  destruct (Hstack out_carry L) as [HsC HlC]; [intros; by apply Hfn|].
  destruct (Hstack out_y ky) as [HsY HlY]; [intros; by apply Hfn|].
  destruct (Hstack out_collection ko) as [HsO HlO]; [intros; by apply Hfn|].
  simpl. split_and!; [done..|].
  intros i Hi.
  destruct (Houts i Hi) as (s & k & c & x & [? ?] & ? & ? & ? & ? & ? & Eo).
  exists s, k, c, x. split_and!; [done..| | |]; auto.
Qed.

Lemma carry_rows_shaped : shaped L m (tensor_rows <$> input_carry).
Proof.
  split; [by rewrite length_fmap|]. apply Forall_fmap, Forall_forall.
  intros leaf Hin. simpl.
  by destruct (carry_shaped_Rows m input_carry leaf Hcarry Hin) as (? & ? & -> & ?).
Qed.

Lemma PSI_lookup l v :
  PSI !! l = Some v →
  shaped m N v ∧ ∀ j, lookup2 v j 0 = lookup2 (tensor_rows <$> input_carry) l j.
Proof.
  unfold padded_carry. rewrite list_lookup_fmap. intros Hv.
  destruct (input_carry !! l) as [leaf|] eqn:E; simplify_eq/=.
  destruct (carry_shaped_Rows m input_carry leaf Hcarry) as (inner & rows & -> & Hrows).
  { by eapply list_elem_of_lookup_2. }
  simpl. assert (shaped m 1 ((λ r, [r]) <$> rows)) as Hs.
  { split; [by rewrite length_fmap|]. by apply Forall_fmap, Forall_true. }
  split.
  - replace N with (1 + (N - 1)) at 1 by lia. by apply shaped_pad_axis1.
  - intros j. unfold lookup2 at 2. rewrite list_lookup_fmap, E. simpl.
    destruct (decide (j < m)) as [Hj|Hj].
    + rewrite (lookup2_pad_axis1 zero m 1) by (done || lia).
      rewrite decide_True by lia. unfold lookup2.
      rewrite list_lookup_fmap. by destruct (rows !! j).
    + rewrite (lookup2_None_l m (1 + (N - 1)))
        by (by apply shaped_pad_axis1 || lia).
      symmetry. apply lookup_ge_None. lia.
Qed.

Lemma MB_lookup j :
  j < m →
  ∃ mb, MB !! j = Some mb ∧ length mb = L
        ∧ ∀ l, mb !! l = lookup2 (tensor_rows <$> input_carry) l j.
Proof.
  intros Hj. destruct carry_rows_shaped as [Hlen Hrows].
  destruct (unstack_lookup m _ j Hrows Hj) as (mb & E & Hmb & Hl).
  exists mb. split_and!; [done|congruence|done].
Qed.

(** The stage inputs at timestep [k]. *)
Lemma _compute_carry_input_spec (cot1 : list (list A)) (k : nat) :
  shaped L N cot1 →
  shaped L N (_compute_carry_input zero cfg PSI cot1 (Z.of_nat k))
  ∧ ∀ l i, i < N →
      lookup2 (_compute_carry_input zero cfg PSI cot1 (Z.of_nat k)) l i
      = if decide (i = 0)
        then lookup2 (tensor_rows <$> input_carry) l (k `mod` m)
        else lookup2 cot1 l (i - 1).
Proof.
  intros [HcL Hc]. unfold _compute_carry_input.
  assert (length PSI = L) as HpL by (unfold padded_carry; by rewrite length_fmap).
  split.
  - split; [rewrite length_zip_with; lia|].
    apply Forall_lookup. intros l out.
    intros (v & w & -> & Ev & Ew)%lookup_zip_with_Some.
    destruct (PSI_lookup l v Ev) as [Hv _].
    rewrite Forall_lookup in Hc.
    apply select_state_or_input_spec; eauto.
  - intros l i Hi. unfold lookup2 at 1. rewrite lookup_zip_with.
    destruct (PSI !! l) as [v|] eqn:Ev; simpl.
    + destruct (lookup_lt_is_Some_2 cot1 l) as [w Ew].
      { apply lookup_lt_Some in Ev. lia. }
      rewrite Ew. simpl. destruct (PSI_lookup l v Ev) as [Hv Hv0].
      rewrite Forall_lookup in Hc.
      destruct (select_state_or_input_spec zero cfg k v w) as [_ Hsel];
        eauto.
      rewrite Hsel by done. case_decide.
      * apply Hv0.
      * unfold lookup2. by rewrite Ew.
    + apply lookup_ge_None in Ev. symmetry. case_decide.
      * apply (lookup2_None_l L m); [apply carry_rows_shaped|lia].
      * apply (lookup2_None_l L N); [done|lia].
Qed.

Lemma shaped_PXS : Forall (shaped T N) PXS.
Proof.
  unfold padded_xs. apply Forall_fmap. eapply Forall_impl; [exact Hxs|].
  simpl. intros x Hx. by apply shaped_transpose_to.
Qed.

(** The per-step inputs at timestep [k]. *)
Lemma scan_xs_lookup k :
  k < T →
  ∃ keys xk,
    zip KEYS (unstack T PXS) !! k = Some (keys, xk)
    ∧ KEYS !! k = Some keys ∧ length keys = N
    ∧ Forall (λ x, length x = N) xk
    ∧ length xk = length (tree_leaves xs)
    ∧ ∀ l i, i < N → i ≤ k → k - i < m →
        lookup2 xk l i = lookup3 (tree_leaves xs) l i (k - i).
Proof.
  intros Hk. pose proof shaped_PXS as HP. pose proof shaped_KEYS as HK.
  assert (Forall (λ leaf, length leaf = T) PXS) as HPT.
  { eapply Forall_impl; [exact HP|]. by intros ? [? _]. }
  destruct (unstack_lookup T PXS k HPT Hk) as (xk & Exk & Hxklen & Hxk).
  destruct (lookup_lt_is_Some_2 KEYS k) as [keys Ekeys].
  { destruct HK as [-> _]. done. }
  exists keys, xk. split_and!.
  - by rewrite lookup_zip_with, Ekeys, Exk.
  - done.
  - by eapply shaped_lookup.
  - apply Forall_lookup. intros l row Erow. rewrite Hxk in Erow.
    unfold lookup2 in Erow. destruct (PXS !! l) as [px|] eqn:Epx; [|done].
    simpl in Erow. rewrite Forall_lookup in HP.
    by eapply shaped_lookup; [eapply HP|].
  - rewrite Hxklen. unfold padded_xs. by rewrite length_fmap.
  - intros l i Hi Hik Hband. unfold lookup2 at 1. rewrite Hxk.
    unfold lookup2, lookup3, padded_xs. rewrite list_lookup_fmap.
    destruct (tree_leaves xs !! l) as [x|] eqn:Ex; simpl; [|done].
    rewrite Forall_lookup in Hxs.
    pose proof (lookup2_transpose_to_diagonal zero x N m i (k - i)
                  (Hxs _ _ Ex) Hi Hband) as Hd.
    replace (i + (k - i)) with k in Hd by lia. exact Hd.
Qed.

Lemma XS3_lookup i j :
  i < N → j < m →
  ∃ x, lookup2 XS3 i j = Some x ∧ length x = length (tree_leaves xs)
       ∧ ∀ l, x !! l = lookup3 (tree_leaves xs) l i j.
Proof.
  intros Hi Hj.
  assert (Forall (λ leaf, length leaf = N) (tree_leaves xs)) as HxN.
  { eapply Forall_impl; [exact Hxs|]. by intros ? [? _]. }
  destruct (unstack_lookup N _ i HxN Hi) as (xi & Exi & Hxilen & Hxi).
  assert (Forall (λ row, length row = m) xi) as Hxim.
  { apply Forall_lookup. intros l row Erow. rewrite Hxi in Erow.
    unfold lookup2 in Erow.
    destruct (tree_leaves xs !! l) as [x|] eqn:Ex; [|done].
    simpl in Erow. rewrite Forall_lookup in Hxs.
    by eapply shaped_lookup; [eapply Hxs|]. }
  destruct (unstack_lookup m xi j Hxim Hj) as (xij & Exij & Hxijlen & Hxij).
  exists xij. split_and!.
  - unfold lookup2. by rewrite list_lookup_fmap, Exi.
  - congruence.
  - intros l. rewrite Hxij. unfold lookup2 at 1. rewrite Hxi.
    unfold lookup2, lookup3. by destruct (tree_leaves xs !! l).
Qed.

Lemma ref_unfold j i :
  ref j i
  = (state_i ← STATES !! i;
     prng_key_tn ← lookup2 KEYS (i + j) i;
     x_ij ← lookup2 XS3 i j;
     carry_in ← match i with
                | 0 => MB !! j
                | S i' => out_carry <$> ref j i'
                end;
     Some (vmap_fn fn state_i prng_key_tn carry_in x_ij)).
Proof. by destruct i. Qed.

(** One transition of the loop keeps the invariant and emits a record that
    agrees with the reference on every valid stage. *)
Lemma step_ok k st xs_t :
  k < T → zip KEYS (unstack T PXS) !! k = Some xs_t →
  state_ok ref m N (L, ky, ko) PSI k st →
  ∃ st' vo, step st xs_t = inr (st', vo)
            ∧ state_ok ref m N (L, ky, ko) PSI (S k) st'
            ∧ record_ok ref m N (L, ky, ko) k vo.
Proof.
  intros Hk Exs (Ht & Hpsi & Hcot).
  rewrite scan_fn_ok by done. rewrite Ht, Hpsi.
  destruct (scan_xs_lookup k Hk)
    as (keys & xk & Exs' & Ekeys & Hkeys & HxkN & Hxklen & Hxk).
  rewrite Exs' in Exs. injection Exs as <-. cbn [fst snd].
  assert (shaped L N (carry_output_t_1 st)) as HcotS.
  { destruct k as [|k']; [done|]. by destruct Hcot as (vo' & -> & ? & _). }
  destruct (_compute_carry_input_spec (carry_output_t_1 st) k HcotS)
    as [HvinS Hvin].
  set (vin := _compute_carry_input zero cfg PSI (carry_output_t_1 st)
                (Z.of_nat k)) in *.
  destruct (vmap_spec keys vin xk Hkeys HvinS HxkN Hxklen)
    as (HsC & HsY & HsO & Hstage).
  set (vo := vmap fn layer_state keys vin xk) in *.
  assert (record_ok ref m N (L, ky, ko) k vo) as Hrec.
  { split_and!; [done..|]. intros i Hi Hik Hband.
    destruct (Hstage i Hi)
      as (s & key & c & x & Es & Ekey & HcL & Hc & Hxlen & Hx & HC & HY & HO).
    exists (vmap_fn fn s key c x). split_and!; [|done..].
    rewrite ref_unfold, Es. simpl.
    replace (i + (k - i)) with k by lia.
    assert (lookup2 KEYS k i = Some key) as ->.
    { unfold lookup2. by rewrite Ekeys. }
    simpl.
    destruct (XS3_lookup i (k - i) Hi Hband) as (x' & Ex' & Hx'len & Hx').
    rewrite Ex'. simpl.
    assert (x' = x) as ->.
    { apply list_eq. intros l. by rewrite Hx', Hx, Hxk. }
    destruct i as [|i'].
    - rewrite Nat.sub_0_r in *.
      destruct (MB_lookup k Hband) as (mb & Emb & HmbL & Hmb).
      rewrite Emb. simpl. do 2 f_equal.
      apply list_eq. intros l. rewrite Hmb, Hc, Hvin by done.
      rewrite decide_True by done. by rewrite Nat.mod_small.
    - destruct k as [|k']; [lia|].
      destruct Hcot as (vo' & Evo' & _ & _ & _ & Hprev).
      destruct (Hprev i') as (r' & Er' & Hr' & _); [lia..|].
      replace (S k' - S i') with (k' - i') by lia.
      rewrite Er'. simpl. do 2 f_equal.
      apply list_eq. intros l. rewrite Hc, Hvin by done.
      rewrite decide_False by done. simpl. rewrite Nat.sub_0_r, Evo'.
      symmetry. apply Hr'. }
  eexists _, _. split; [done|]. split; [|done].
  split_and!; simpl.
  - rewrite wrap32_small; lia.
  - done.
  - by exists vo.
Qed.

(** The whole loop. *)
Lemma loop_ok :
  ∃ final scan_ys,
    scan step (state_t0 zero N input_carry PSI) (zip KEYS (unstack T PXS))
    = inr (final, scan_ys)
    ∧ length scan_ys = T
    ∧ ∀ k vo, scan_ys !! k = Some vo → record_ok ref m N (L, ky, ko) k vo.
Proof.
  destruct (scan_invariant step (state_ok ref m N (L, ky, ko) PSI)
              (record_ok ref m N (L, ky, ko))
              (zip KEYS (unstack T PXS)) (state_t0 zero N input_carry PSI))
    as (final & scan_ys & Hscan & _ & Hlen & Hrec).
  - split_and!; [done..|]. simpl. split; [by rewrite length_fmap|].
    apply Forall_fmap, Forall_true. intros leaf. simpl.
    by rewrite length_replicate.
  - intros k st xs_t Ek Hst. apply step_ok; [|done..].
    apply lookup_lt_Some in Ek. by rewrite length_scan_xs in Ek.
  - exists final, scan_ys. split_and!; [done| |done].
    by rewrite Hlen, length_scan_xs.
Qed.

(** Stacking the records of the loop along the time axis. *)
Lemma stack_time (g : Outputs (list A) → list (list A)) (c : nat)
    (scan_ys : list (Outputs (list A))) :
  length scan_ys = T →
  (∀ k vo, scan_ys !! k = Some vo → shaped c N (g vo)) →
  length (stack (g <$> scan_ys)) = c
  ∧ ∀ l x, stack (g <$> scan_ys) !! l = Some x →
      shaped T N x
      ∧ ∀ k i, lookup2 x k i = scan_ys !! k ≫= λ vo, lookup2 (g vo) l i.
Proof.
  intros Hlen Hg.
  assert (shaped T c (g <$> scan_ys)) as Hs.
  { split; [by rewrite length_fmap|]. apply Forall_fmap, Forall_lookup.
    intros k vo Evo. simpl. by destruct (Hg k vo Evo). }
  destruct (stack_shaped T c _ ltac:(lia) Hs) as [[HlenS HrowS] Hlook].
  split; [done|]. intros l x Ex.
  assert (∀ k, x !! k = scan_ys !! k ≫= λ vo, g vo !! l) as Hx.
  { intros k. specialize (Hlook l k). unfold lookup2 in Hlook.
    rewrite Ex, list_lookup_fmap in Hlook. simpl in Hlook. rewrite Hlook.
    by destruct (scan_ys !! k). }
  split; [split|].
  - rewrite Forall_lookup in HrowS. by apply (HrowS l).
  - apply Forall_lookup. intros k row Erow. rewrite Hx in Erow.
    destruct (scan_ys !! k) as [vo|] eqn:Evo; [|done]. simpl in Erow.
    by eapply shaped_lookup; [eapply Hg|].
  - intros k i. unfold lookup2 at 1. rewrite Hx. unfold lookup2.
    by destruct (scan_ys !! k).
Qed.

(** The final carry: the last stage's records over the last M timesteps. *)
Lemma final_carry_spec (scan_ys : list (Outputs (list A))) :
  length scan_ys = T →
  (∀ k vo, scan_ys !! k = Some vo → record_ok ref m N (L, ky, ko) k vo) →
  shaped L m (extract_outputs N <$> stack (out_carry <$> scan_ys))
  ∧ ∀ j, j < m →
      ∃ r, ref j (N - 1) = Some r
           ∧ ∀ l, lookup2 (extract_outputs N <$> stack (out_carry <$> scan_ys))
                    l j
                  = out_carry r !! l.
Proof.
  intros Hlen Hrec.
  destruct (stack_time out_carry L scan_ys Hlen) as [HlenS Hleaf].
  { intros k vo Evo. by destruct (Hrec k vo Evo) as (? & _). }
  split.
  - split; [by rewrite length_fmap|]. apply Forall_fmap, Forall_lookup.
    intros l x Ex. simpl. destruct (Hleaf l x Ex) as [Hx _].
    destruct (extract_outputs_spec N x T HN Hx) as [-> _]; lia.
  - intros j Hj.
    destruct (lookup_lt_is_Some_2 scan_ys (N - 1 + j)) as [vo Evo]; [lia|].
    destruct (Hrec _ vo Evo) as (HsC & _ & _ & Hvalid).
    destruct (Hvalid (N - 1)) as (r & Er & Hr & _); [lia..|].
    replace (N - 1 + j - (N - 1)) with j in Er by lia.
    exists r. split; [done|]. intros l. rewrite <- Hr.
    unfold lookup2 at 1. rewrite list_lookup_fmap.
    destruct (stack (out_carry <$> scan_ys) !! l) as [x|] eqn:Ex; simpl.
    + destruct (Hleaf l x Ex) as [Hx Hlook].
      destruct (extract_outputs_spec N x T HN Hx) as [_ ->]; [lia|].
      by rewrite Hlook, Evo.
    + apply lookup_ge_None in Ex. symmetry.
      apply (lookup2_None_l L N); [done|lia].
Qed.

(** The layer-wise outputs, transposed back to the layer-major layout. *)
Lemma layer_major_spec (gs : Outputs (list A) → list (list A))
    (g : Outputs A → list A) (c : nat) (scan_ys : list (Outputs (list A))) :
  length scan_ys = T →
  (∀ k vo, scan_ys !! k = Some vo →
     shaped c N (gs vo)
     ∧ ∀ i, i < N → i ≤ k → k - i < m →
         ∃ r, ref (k - i) i = Some r ∧ slice_of (gs vo) i (g r)) →
  length (transpose_from_pipeline_stage_outputs zero
            <$> stack (gs <$> scan_ys)) = c
  ∧ Forall (shaped N m)
      (transpose_from_pipeline_stage_outputs zero <$> stack (gs <$> scan_ys))
  ∧ ∀ i j, i < N → j < m →
      ∃ r, ref j i = Some r
           ∧ ∀ l, lookup3 (transpose_from_pipeline_stage_outputs zero
                             <$> stack (gs <$> scan_ys)) l i j
                  = g r !! l.
Proof.
  intros Hlen Hrec.
  destruct (stack_time gs c scan_ys Hlen) as [HlenS Hleaf].
  { intros k vo Evo. by destruct (Hrec k vo Evo) as (? & _). }
  split_and!.
  - by rewrite length_fmap.
  - apply Forall_fmap, Forall_lookup. intros l x Ex. simpl.
    destruct (Hleaf l x Ex) as [Hx _].
    by destruct (lookup2_transpose_from zero x N m 0 0).
  - intros i j Hi Hj.
    destruct (lookup_lt_is_Some_2 scan_ys (i + j)) as [vo Evo]; [lia|].
    destruct (Hrec _ vo Evo) as (Hs & Hvalid).
    destruct (Hvalid i) as (r & Er & Hr); [lia..|].
    replace (i + j - i) with j in Er by lia.
    exists r. split; [done|]. intros l. rewrite <- Hr.
    unfold lookup3. rewrite list_lookup_fmap.
    destruct (stack (gs <$> scan_ys) !! l) as [x|] eqn:Ex; simpl.
    + destruct (Hleaf l x Ex) as [Hx Hlook].
      destruct (lookup2_transpose_from zero x N m i j) as [_ ->]; [done..|].
      by rewrite Hlook, Evo.
    + apply lookup_ge_None in Ex. symmetry.
      apply (lookup2_None_l c N); [done|lia].
Qed.

Lemma sequential_eq j i :
  sequential random_split cfg layer_state prng_key fn input_carry (tree_leaves xs)
    j i
  = ref j i.
Proof.
  unfold sequential, _num_stages.
  destruct Hcarry as [Hne Hall]. destruct input_carry as [|leaf0 rest]; [done|].
  destruct (carry_shaped_Rows m (leaf0 :: rest) leaf0)
    as (inner & rows & -> & Hrows); [done|by left|].
  simpl. by rewrite Hrows.
Qed.

(** [_run] returns, for every microbatch, the carry of the last stage and,
    for every stage and microbatch, the outputs of that stage, as the
    stages compute them when applied one after another. *)
Lemma _run_sequential :
  ∃ final scan_ys out,
    scan step (state_t0 zero N input_carry PSI) (zip KEYS (unstack T PXS))
    = inr (final, scan_ys)
    ∧ length scan_ys = T
    ∧ _run zero random_split cfg layer_state prng_key fn (Some input_carry) xs
      = inr out
    ∧ carry out = extract_outputs N <$> stack (out_carry <$> scan_ys)
    ∧ Forall (shaped T N) (stack (out_carry <$> scan_ys))
    ∧ shaped L m (carry out)
    ∧ (∀ j, j < m →
         ∃ r, ref j (N - 1) = Some r
              ∧ ∀ l, lookup2 (carry out) l j = out_carry r !! l)
    ∧ length (ys out) = ky
    ∧ Forall (shaped N m) (ys out)
    ∧ (∀ i j, i < N → j < m →
         ∃ r, ref j i = Some r ∧ ∀ l, lookup3 (ys out) l i j = out_y r !! l)
    ∧ length (layer_output_collection out) = ko
    ∧ Forall (shaped N m) (layer_output_collection out)
    ∧ (∀ i j, i < N → j < m →
         ∃ r, ref j i = Some r
              ∧ ∀ l, lookup3 (layer_output_collection out) l i j
                     = out_collection r !! l).
Proof.
  destruct loop_ok as (final & scan_ys & Hscan & Hlen & Hrec).
  destruct (final_carry_spec scan_ys Hlen Hrec) as [HcS Hc].
  destruct (layer_major_spec out_y out_y ky scan_ys Hlen)
    as (HyL & HyS & Hy).
  { intros k vo Evo. destruct (Hrec k vo Evo) as (_ & ? & _ & Hv).
    split; [done|]. intros i ???.
    destruct (Hv i) as (r & ? & _ & ? & _); eauto. }
  destruct (layer_major_spec out_collection out_collection ko scan_ys Hlen)
    as (HoL & HoS & Ho).
  { intros k vo Evo. destruct (Hrec k vo Evo) as (_ & _ & ? & Hv).
    split; [done|]. intros i ???.
    destruct (Hv i) as (r & ? & _ & _ & ?); eauto. }
  exists final, scan_ys. eexists. split; [done|]. split; [done|]. split.
  { rewrite (_run_unfold _ _ _ _ _ _ m) by done. by rewrite Hscan. }
  simpl. split_and!; try done.
  destruct (stack_time out_carry L scan_ys Hlen) as [_ Hleaf].
  { intros k vo Evo. by destruct (Hrec k vo Evo) as (? & _). }
  apply Forall_lookup. intros l x Ex. by destruct (Hleaf l x Ex).
Qed.

End correctness.

(** ** Consequences for the results of [_run] *)

Section results.
Context {A : Type}.
Variable random_split : A → nat → list A.
Variable cfg : Config.
Variable layer_state : list (list A).
Variable prng_key : A.
Local Abbreviation N := (num_layers cfg).
Local Abbreviation M := (num_microbatches cfg).
Implicit Types input_carry : list (@Tensor A).
Implicit Types xs : option (list (list (list A))).
Implicit Types fn : StageFn (A:=A).

Lemma nested_ext (a b : list (list (list A))) (c r k : nat) :
  length a = c → length b = c →
  Forall (shaped r k) a → Forall (shaped r k) b →
  (∀ l i j, i < r → j < k → lookup3 a l i j = lookup3 b l i j) →
  a = b.
Proof.
  intros Ha Hb Hsa Hsb Hab. apply list_eq_same_length with c; [done..|].
  intros l x y Hl Ex Ey. rewrite Forall_lookup in Hsa, Hsb.
  apply (shaped_ext x y r k); [eauto..|].
  intros i j Hi Hj. specialize (Hab l i j Hi Hj). unfold lookup3 in Hab.
  by rewrite Ex, Ey in Hab.
Qed.

Lemma uniform_identity_stage (Ls L Lx : nat) :
  uniform_structure (A:=A) identity_stage Ls L Lx L 0.
Proof. by intros s k c x _ Hc _. Qed.

Lemma stage_after_stage_identity (states : list (list A))
    (keys : list (list A)) (microbatches : list (list A))
    (xs3 : list (list (list A))) (j i : nat) r :
  stage_after_stage identity_stage states keys microbatches xs3 j i = Some r →
  ∃ mb, microbatches !! j = Some mb ∧ r = mkOutputs mb mb [].
Proof.
  revert r. induction i as [|i IH]; intros r Hr; simpl in Hr.
  - destruct (states !! 0); [|done]. simpl in Hr.
    destruct (lookup2 keys _ _); [|done]. simpl in Hr.
    destruct (lookup2 xs3 _ _); [|done]. simpl in Hr.
    destruct (microbatches !! j) as [mb|]; [|done]. simpl in Hr.
    exists mb. split; [done|]. by injection Hr as <-.
  - destruct (states !! S i); [|done]. simpl in Hr.
    destruct (lookup2 keys _ _); [|done]. simpl in Hr.
    destruct (lookup2 xs3 _ _); [|done]. simpl in Hr.
    destruct (stage_after_stage _ _ _ _ _ _ _) as [r'|]; [|done].
    simpl in Hr. destruct (IH r' eq_refl) as (mb & Emb & ->).
    exists mb. split; [done|]. by injection Hr as <-.
Qed.




End results.

(** * Further properties *)

(** ** The layout transposes *)

Section more_layout.
Context {A : Type}.
Variable zero : A.
Implicit Types x y : list (list A).

Lemma lookup2_transpose_to_off_band x n m t i :
  shaped n m x → t < m + n - 1 → i < n → ¬ (i ≤ t ∧ t - i < m) →
  lookup2 (transpose_to_pipeline_stage_inputs zero x) t i = Some zero.
Proof.
  intros Hx Ht Hi Hband.
  rewrite (lookup2_transpose_to zero x n m) by done.
  pose proof (shaped_pad_axis1 zero n m n x Hx) as [_ Hpad].
  destruct (decide (i ≤ t)) as [Hle|Hgt].
  - replace (i * (m + n - 1) + t) with (i * (m + n) + (t - i)) by nia.
    rewrite (lookup_flatten2 _ (m + n)) by (done || lia).
    rewrite (lookup2_pad_axis1 zero n m) by (done || lia).
    rewrite decide_False; [done|lia].
  - replace (i * (m + n - 1) + t)
      with ((i - 1) * (m + n) + (m + n + t - i)) by nia.
    rewrite (lookup_flatten2 _ (m + n)) by (done || lia).
    rewrite (lookup2_pad_axis1 zero n m) by (done || lia).
    rewrite decide_False; [done|lia].
Qed.

(** X1.  On every pipeline-major array [x] of shape [M + N - 1, N, ...]
    (N, M >= 1), whatever its bubble entries hold,
    [transpose_from_pipeline_stage_outputs] returns an array of shape
    [N, M, ...] with [x'[i, j] == x[i + j, i]], as its docstring says. *)
Theorem transpose_from_pipeline_stage_outputs_diagonal y n m :
  1 ≤ n → 1 ≤ m → shaped (m + n - 1) n y →
  shaped n m (transpose_from_pipeline_stage_outputs zero y)
  ∧ ∀ i j, i < n → j < m →
      is_Some (lookup2 y (i + j) i)
      ∧ lookup2 (transpose_from_pipeline_stage_outputs zero y) i j
        = lookup2 y (i + j) i.
Proof.
  intros Hn Hm Hy. split.
  - by destruct (lookup2_transpose_from zero y n m 0 0).
  - intros i j Hi Hj. split.
    + apply (lookup2_is_Some y (m + n - 1) n); [done|lia|done].
    + by destruct (lookup2_transpose_from zero y n m i j).
Qed.

(** X2.  Going from the pipeline-major layout to the layer-major layout and
    back keeps the entries of the diagonal band and replaces every bubble
    entry by the zero block; so the composition is the identity exactly on
    the arrays whose bubble entries are zero. *)
Theorem transpose_to_from_clears_bubbles y n m :
  1 ≤ n → 1 ≤ m → shaped (m + n - 1) n y →
  (∀ t i, t < m + n - 1 → i < n →
     lookup2 (transpose_to_pipeline_stage_inputs zero
                (transpose_from_pipeline_stage_outputs zero y)) t i
     = if decide (i ≤ t ∧ t - i < m) then lookup2 y t i else Some zero)
  ∧ (transpose_to_pipeline_stage_inputs zero
       (transpose_from_pipeline_stage_outputs zero y) = y
     ↔ ∀ t i, t < m + n - 1 → i < n → ¬ (i ≤ t ∧ t - i < m) →
         lookup2 y t i = Some zero).
Proof.
  intros Hn Hm Hy.
  destruct (lookup2_transpose_from zero y n m 0 0) as [Hfrom _]; [done..|].
  pose proof (shaped_transpose_to zero _ n m Hfrom Hn) as Hto.
  assert (∀ t i, t < m + n - 1 → i < n →
    lookup2 (transpose_to_pipeline_stage_inputs zero
               (transpose_from_pipeline_stage_outputs zero y)) t i
    = if decide (i ≤ t ∧ t - i < m) then lookup2 y t i else Some zero)
    as Hlook.
  { intros t i Ht Hi. case_decide as Hband.
    - destruct Hband as [Hle Hlt].
      pose proof (lookup2_transpose_to_diagonal zero _ n m i (t - i)
                    Hfrom Hi Hlt) as Hd.
      destruct (lookup2_transpose_from zero y n m i (t - i)) as [_ Hf];
        [done..|].
      replace (i + (t - i)) with t in Hd, Hf by lia. by rewrite Hd.
    - by apply (lookup2_transpose_to_off_band _ n m). }
  split; [done|]. split.
  - intros Heq t i Ht Hi Hband. rewrite <- Heq, Hlook by done.
    by rewrite decide_False.
  - intros Hzero. apply (shaped_ext _ _ (m + n - 1) n); [done..|].
    intros t i Ht Hi. rewrite Hlook by done. case_decide; [done|].
    symmetry. by apply Hzero.
Qed.

End more_layout.

(** ** Microbatching *)

Section microbatching.
Context {A : Type}.
Variable cfg : Config.
Local Abbreviation M := (num_microbatches cfg).
Implicit Types x : list A.
Implicit Types y : list (list A).
Implicit Types inputs : list (list A).

Lemma reshape_and_transpose_spec x b :
  1 ≤ M → length x = b * M →
  ∃ y, reshape_and_transpose cfg x = Some y
       ∧ shaped M b y
       ∧ (∀ j k, j < M → k < b → lookup2 y j k = x !! (k * M + j))
       ∧ transpose_and_reshape y = x.
Proof.
  intros HM Hlen. unfold reshape_and_transpose.
  rewrite decide_True by (rewrite Hlen, Nat.Div0.mod_mul; lia).
  rewrite Hlen, Nat.div_mul by lia.
  pose proof (shaped_unflatten2 b M x Hlen) as Hu.
  pose proof (shaped_transpose b M _ Hu) as Ht.
  eexists. split; [done|]. split_and!; [done| |].
  - intros j k Hj Hk. rewrite (lookup2_transpose b) by done.
    by apply lookup2_unflatten2.
  - unfold transpose_and_reshape.
    rewrite (shape2_shaped _ M b) by done. simpl.
    rewrite (transpose_transpose b M) by done.
    by apply flatten2_unflatten2.
Qed.

Lemma transpose_and_reshape_spec y b :
  1 ≤ M → shaped M b y →
  length (transpose_and_reshape y) = b * M
  ∧ reshape_and_transpose cfg (transpose_and_reshape y) = Some y.
Proof.
  intros HM Hy. unfold transpose_and_reshape.
  rewrite (shape2_shaped _ M b) by done. simpl.
  pose proof (shaped_transpose M b y Hy) as Ht.
  pose proof (length_flatten2 _ _ _ Ht) as Hlen. split; [done|].
  unfold reshape_and_transpose. rewrite Hlen.
  rewrite decide_True by (rewrite Nat.Div0.mod_mul; lia).
  rewrite Nat.div_mul by lia. f_equal.
  rewrite unflatten2_flatten2 by done. by apply transpose_transpose.
Qed.

(** X3.  With M >= 1 microbatches and inputs whose batch size is [b * M],
    [_to_microbatches] returns leaves of shape [M, b, ...] in which
    microbatch [j] holds the examples [j], [M + j], [2 M + j], ...: entry
    [k] of microbatch [j] is example [k * M + j] of the batch. *)
Theorem _to_microbatches_layout inputs b :
  1 ≤ M → Forall (λ x, length x = b * M) inputs →
  ∃ out,
    _to_microbatches cfg inputs = Some out
    ∧ length out = length inputs
    ∧ Forall (shaped M b) out
    ∧ ∀ l x j k, inputs !! l = Some x → j < M → k < b →
        is_Some (x !! (k * M + j))
        ∧ lookup3 out l j k = x !! (k * M + j).
Proof.
  intros HM Hin. unfold _to_microbatches.
  destruct (mapM (reshape_and_transpose cfg) inputs) as [out|] eqn:E.
  - apply mapM_Some in E. exists out. split; [done|].
    split; [symmetry; by eapply Forall2_length|]. split.
    + apply Forall_lookup. intros l y Ey.
      destruct (Forall2_lookup_r _ _ _ _ _ E Ey) as (x & Ex & Hxy).
      rewrite Forall_lookup in Hin.
      destruct (reshape_and_transpose_spec x b HM (Hin _ _ Ex))
        as (y' & Ey' & Hy' & _).
      congruence.
    + intros l x j k Ex Hj Hk. rewrite Forall_lookup in Hin.
      pose proof (Hin _ _ Ex) as Hlen. split.
      { apply lookup_lt_is_Some. rewrite Hlen. nia. }
      destruct (Forall2_lookup_l _ _ _ _ _ E Ex) as (y & Ey & Hxy).
      destruct (reshape_and_transpose_spec x b HM Hlen)
        as (y' & Ey' & _ & Hy' & _).
      unfold lookup3. rewrite Ey. simpl.
      rewrite Ey' in Hxy. injection Hxy as <-. by apply Hy'.
  - apply mapM_None_1, Exists_exists in E as (x & Hx & Ex).
    rewrite Forall_forall in Hin.
    destruct (reshape_and_transpose_spec x b HM (Hin _ Hx)) as (? & ? & _).
    congruence.
Qed.

(** X4.  For M >= 1 and inputs whose batch size is a multiple of M,
    [_from_microbatches] undoes [_to_microbatches]: the batch comes back
    with its examples in their original order. *)
Theorem _from_to_microbatches inputs :
  1 ≤ M → Forall (λ x, length x `mod` M = 0) inputs →
  ∃ out, _to_microbatches cfg inputs = Some out
         ∧ _from_microbatches out = inputs.
Proof.
  intros HM Hin. unfold _to_microbatches, _from_microbatches.
  assert (∀ x, x ∈ inputs →
    ∃ y, reshape_and_transpose cfg x = Some y ∧ transpose_and_reshape y = x)
    as Hleaf.
  { intros x Hx. rewrite Forall_forall in Hin.
    destruct (reshape_and_transpose_spec x (length x `div` M) HM)
      as (y & Ey & _ & _ & Hy).
    { pose proof (Nat.div_mod (length x) M). rewrite (Hin x Hx) in *. lia. }
    eauto. }
  destruct (mapM (reshape_and_transpose cfg) inputs) as [out|] eqn:E.
  - apply mapM_Some in E. exists out. split; [done|].
    apply list_eq. intros l. rewrite list_lookup_fmap.
    destruct (inputs !! l) as [x|] eqn:Ex.
    + destruct (Forall2_lookup_l _ _ _ _ _ E Ex) as (y & Ey & Hxy).
      rewrite Ey. simpl. f_equal.
      destruct (Hleaf x) as (y' & Ey' & Hy'); [by eapply list_elem_of_lookup_2|].
      congruence.
    + apply lookup_ge_None in Ex. apply Forall2_length in E.
      rewrite (lookup_ge_None_2 out) by lia. done.
  - apply mapM_None_1, Exists_exists in E as (x & Hx & Ex).
    destruct (Hleaf x Hx) as (? & ? & _). congruence.
Qed.

(** X5.  For M >= 1, [_to_microbatches] undoes [_from_microbatches] on
    every structure whose leaves have shape [M, b, ...]; in particular it
    does not raise there. *)
Theorem _to_from_microbatches (microbatched : list (list (list A))) :
  1 ≤ M → Forall (λ y, ∃ b, shaped M b y) microbatched →
  _to_microbatches cfg (_from_microbatches microbatched) = Some microbatched.
Proof.
  intros HM Hs. unfold _to_microbatches, _from_microbatches.
  apply mapM_Some, Forall2_fmap_l, Forall_Forall2_diag.
  eapply Forall_impl; [done|]. simpl. intros y [b Hy].
  by destruct (transpose_and_reshape_spec y b HM Hy).
Qed.

(** X6.  For M >= 1, [_to_microbatches] succeeds exactly on the inputs in
    which the batch size of every leaf is a multiple of M; on any other
    input the reshape raises. *)
Theorem _to_microbatches_divisible inputs :
  1 ≤ M →
  is_Some (_to_microbatches cfg inputs)
  ↔ Forall (λ x, length x `mod` M = 0) inputs.
Proof.
  intros HM. unfold _to_microbatches. split.
  - intros [out E]. apply mapM_Some in E.
    apply Forall_lookup. intros l x Ex.
    destruct (Forall2_lookup_l _ _ _ _ _ E Ex) as (y & _ & Hxy).
    unfold reshape_and_transpose in Hxy. case_decide; [|done]. tauto.
  - intros Hin.
    destruct (mapM (reshape_and_transpose cfg) inputs) as [out|] eqn:E;
      [done|].
    apply mapM_None_1, Exists_exists in E as (x & Hx & Ex).
    rewrite Forall_forall in Hin. unfold reshape_and_transpose in Ex.
    rewrite decide_True in Ex; [done|]. split; [lia|by apply Hin].
Qed.

End microbatching.

(** ** The validity mask over the loop *)

Section mask_span.
Context {A : Type}.
Variable cfg : Config.
Local Abbreviation N := (num_layers cfg).
Local Abbreviation M := (num_microbatches cfg).
Implicit Types per_stage_values : list A.

(** X7.  The M + N - 1 timesteps of the loop are exactly the ones with
    work to do: at every timestep t < M + N - 1 the mask of
    [_is_valid_stage] marks at least one stage as valid, and at every later
    timestep (representable as a 32-bit integer) it marks none. *)
Theorem _is_valid_stage_span per_stage_values :
  1 ≤ N → 1 ≤ M → length per_stage_values = N →
  (∀ t : nat, t < M + N - 1 → (Z.of_nat (M + N - 1) ≤ 2 ^ 31)%Z →
     ∃ mask i, _is_valid_stage cfg per_stage_values (Z.of_nat t) = inr mask
               ∧ i < N ∧ mask !! i = Some true)
  ∧ (∀ t : nat, M + N - 1 ≤ t → (Z.of_nat t < 2 ^ 31)%Z →
       _is_valid_stage cfg per_stage_values (Z.of_nat t)
       = inr (replicate N false)).
Proof.
  intros HN HM Hlen. split.
  - intros t Ht Hfit.
    rewrite (_is_valid_stage_in_range cfg per_stage_values t) by done.
    eexists. exists (t `min` (N - 1)). split; [done|]. split; [lia|].
    rewrite list_lookup_fmap, lookup_seq_lt by lia. simpl. f_equal.
    apply bool_decide_eq_true. lia.
  - intros t Ht Hfit. rewrite _is_valid_stage_ok by done. f_equal.
    apply list_eq. intros i. rewrite list_lookup_fmap.
    destruct (decide (i < N)) as [Hi|Hi].
    + rewrite lookup_seq_lt, lookup_replicate_2 by done. simpl. f_equal.
      rewrite wrap32_small by lia.
      apply andb_false_intro2, bool_decide_eq_false. lia.
    + rewrite lookup_seq_ge by lia. symmetry.
      apply lookup_replicate_None. lia.
Qed.

End mask_span.

(** ** Errors raised by the scheduler *)

Section result_lemmas.
Context {T U : Type}.
Implicit Types f : T → result U.

Lemma mapM_inl f (l1 : list T) (x : T) (l2 : list T) (e : Exception) :
  Forall (λ y, ∃ u, f y = inr u) l1 → f x = inl e →
  mapM f (l1 ++ x :: l2) = inl e.
Proof.
  intros Hl1 Hx. induction Hl1 as [|y l1 [u Hy] _ IH]; simpl.
  - by rewrite Hx.
  - rewrite Hy. result_simpl. by rewrite IH.
Qed.

Lemma mapM_Exists_inl f (l : list T) :
  Exists (λ x, ∃ e, f x = inl e) l → ∃ e, mapM f l = inl e.
Proof.
  induction l as [|x l IH]; intros Hex; [by apply Exists_nil in Hex|].
  simpl. destruct (f x) as [e|u] eqn:Ex; [by exists e|].
  apply Exists_cons in Hex as [[e He]|Hex]; [congruence|].
  destruct (IH Hex) as [e He]. exists e. result_simpl. by rewrite He.
Qed.

End result_lemmas.

Section more_scheduler.
Context {A : Type}.
Variable zero : A.
Variable random_split : A → nat → list A.
Variable cfg : Config.
Variable prng_key : A.
Local Abbreviation N := (num_layers cfg).
Local Abbreviation M := (num_microbatches cfg).
Implicit Types layer_state : list (list A).
Implicit Types fn : StageFn (A:=A).
Implicit Types input_carry : list (@Tensor A).
Implicit Types xs : option (list (list (list A))).

(** X8.  Parameters that are not stacked over the N stages are rejected:
    for a well-shaped carry and layer-wise inputs (N, M >= 1), if the first
    parameter leaf whose leading dimension is not N has leading dimension
    [d], then [_run] raises the ValueError "Leading dim d does not match
    number of stages N." of [_is_valid_stage]. *)
Theorem _run_rejects_unstacked_parameters layer_state fn input_carry xs m
    (stacked : list (list A)) (leaf : list A) (others : list (list A)) :
  1 ≤ N → 1 ≤ m →
  carry_shaped m input_carry → Forall (shaped N m) (tree_leaves xs) →
  layer_state = stacked ++ leaf :: others →
  Forall (λ x, length x = N) stacked → length leaf ≠ N →
  _run zero random_split cfg layer_state prng_key fn (Some input_carry) xs
  = inl (ValueError ("Leading dim " +:+ pretty (length leaf)
                     +:+ " does not match number of stages "
                     +:+ pretty N +:+ ".")).
Proof.
  intros HN Hm Hcarry Hxs -> Hstacked Hleaf.
  rewrite (_run_unfold _ _ _ _ _ _ m) by done.
  pose proof (length_scan_xs zero random_split cfg prng_key m
                (tree_leaves xs) HN Hxs) as Hlen.
  destruct (zip _ _) as [|[prng_key_t x_t] scan_xs]; [simpl in Hlen; lia|].
  simpl. unfold scan_fn at 1.
  rewrite (mapM_inl _ stacked leaf others
             (ValueError ("Leading dim " +:+ pretty (length leaf)
                          +:+ " does not match number of stages "
                          +:+ pretty N +:+ "."))); [done| |].
  - eapply Forall_impl; [done|]. simpl. intros x Hx.
    rewrite _is_valid_stage_ok by done. by eexists.
  - unfold _is_valid_stage, _num_stages. by rewrite decide_True.
Qed.

(** X9.  Masking the parameters of bubble stages with [stop_gradient]
    changes no forward value: with parameters stacked over the N stages,
    every transition, at every timestep and whatever stages are valid,
    applies the stage computation to the unchanged parameters of all N
    stages, and passes [per_stage_inputs] on unchanged. *)
Theorem scan_fn_applies_unmasked_parameters layer_state fn
    (carry_in : LoopState) (prng_key_t : list A) (x_t : list (list A)) :
  Forall (λ x, length x = N) layer_state →
  ∃ carry_out,
    scan_fn zero cfg layer_state fn carry_in (prng_key_t, x_t)
    = inr (carry_out,
           vmap fn layer_state prng_key_t
             (_compute_carry_input zero cfg (per_stage_inputs carry_in)
                (carry_output_t_1 carry_in) (t carry_in)) x_t)
    ∧ t carry_out = wrap32 (t carry_in + 1)
    ∧ carry_output_t_1 carry_out
      = out_carry (vmap fn layer_state prng_key_t
                     (_compute_carry_input zero cfg
                        (per_stage_inputs carry_in)
                        (carry_output_t_1 carry_in) (t carry_in)) x_t)
    ∧ per_stage_inputs carry_out = per_stage_inputs carry_in.
Proof.
  intros Hstate. eexists. split; [by apply scan_fn_ok|]. done.
Qed.

(** X10.  What [pad_carry] pads with is never read by the forward pass:
    for leaves of shape [M, N, ...] the stage input chosen by
    [select_state_or_input] depends on the per-stage inputs only through
    slot 0 of row [t mod M], and it does not depend on the block that the
    right shift inserts at index 0. *)
Theorem select_state_or_input_reads_slot_0 (filler : A) (t : nat)
    (v_input_t v_input_t' : list (list A)) (v_carry_output_t_1 : list A) :
  1 ≤ N → 1 ≤ M →
  shaped M N v_input_t → shaped M N v_input_t' →
  length v_carry_output_t_1 = N →
  lookup2 v_input_t (t `mod` M) 0 = lookup2 v_input_t' (t `mod` M) 0 →
  select_state_or_input zero cfg (Z.of_nat t) v_input_t v_carry_output_t_1
  = select_state_or_input filler cfg (Z.of_nat t) v_input_t'
      v_carry_output_t_1.
Proof.
  intros HN HM Hv Hv' Hc Hslot.
  destruct (select_state_or_input_spec zero cfg t v_input_t
              v_carry_output_t_1) as [Hlen Hlook]; [done..|].
  destruct (select_state_or_input_spec filler cfg t v_input_t'
              v_carry_output_t_1) as [Hlen' Hlook']; [done..|].
  apply list_eq. intros k. destruct (decide (k < N)) as [Hk|Hk].
  - rewrite Hlook, Hlook' by done. by case_decide.
  - by rewrite !lookup_ge_None_2 by lia.
Qed.

(** X11.  On a carry leaf of shape [M, ...] and for N >= 1 stages
    [pad_carry] returns an array of shape [M, N, ...] whose slot 0 along
    the new stage axis is the carry and whose other slots are zero: the
    carry is padded, not broadcast, along the stage axis. *)
Theorem pad_carry_pads_with_zeros (inner : list nat) (rows : list A)
    (n : nat) :
  1 ≤ n →
  ∃ v_carry,
    pad_carry zero n (Rows inner rows) = inr v_carry
    ∧ shaped (length rows) n v_carry
    ∧ ∀ j, j < length rows →
        lookup2 v_carry j 0 = rows !! j
        ∧ ∀ k, 0 < k < n → lookup2 v_carry j k = Some zero.
Proof.
  intros Hn. simpl. rewrite decide_False by lia.
  assert (shaped (length rows) 1 ((λ r, [r]) <$> rows)) as Hs.
  { split; [by rewrite length_fmap|]. by apply Forall_fmap, Forall_true. }
  eexists. split; [done|]. split.
  { replace n with (1 + (n - 1)) at 1 by lia. by apply shaped_pad_axis1. }
  intros j Hj. split.
  - rewrite (lookup2_pad_axis1 zero (length rows) 1) by (done || lia).
    rewrite decide_True by lia. unfold lookup2.
    rewrite list_lookup_fmap. by destruct (rows !! j).
  - intros k Hk.
    rewrite (lookup2_pad_axis1 zero (length rows) 1) by (done || lia).
    by rewrite decide_False by lia.
Qed.

(** X12.  A rank-0 leaf anywhere in the carry makes [_run] raise, also
    when the entry check on the first leaf passes: the error comes from
    padding the carry, before the loop, and so is the same whatever the
    stage computation and the layer-wise inputs are. *)
Theorem _run_rejects_scalar_leaf layer_state (leaf0 : @Tensor A)
    (leaves : list (@Tensor A)) (v : A) :
  2 ≤ ndim leaf0 → Scalar v ∈ leaves →
  ∃ e, ∀ fn xs,
    _run zero random_split cfg layer_state prng_key fn
      (Some (leaf0 :: leaves)) xs = inl e.
Proof.
  intros Hnd Hin.
  destruct (mapM_Exists_inl (pad_carry zero N) (leaf0 :: leaves)) as [e He].
  { apply Exists_cons. right. apply Exists_exists.
    exists (Scalar v). split; [done|]. by eexists. }
  exists e. intros fn xs. unfold _run, tree_leaves, default, _num_stages.
  cbv beta iota delta [id]. rewrite decide_False by lia. by rewrite He.
Qed.

(** X13.  Every (timestep, stage) pair of the loop has a random key of its
    own: the key of timestep [t] and stage [i] is entry [t * N + i] of the
    split, so if the split returns pairwise distinct keys no two pairs
    share a key. *)
Theorem prng_keys_one_per_timestep_and_stage (m : nat) :
  length (random_split prng_key ((m + N - 1) * N)) = (m + N - 1) * N →
  (∀ t i, t < m + N - 1 → i < N →
     is_Some (lookup2 (prng_keys random_split prng_key m N) t i)
     ∧ lookup2 (prng_keys random_split prng_key m N) t i
       = random_split prng_key ((m + N - 1) * N) !! (t * N + i))
  ∧ (NoDup (random_split prng_key ((m + N - 1) * N)) →
     ∀ t i t' i', t < m + N - 1 → i < N → t' < m + N - 1 → i' < N →
       lookup2 (prng_keys random_split prng_key m N) t i
       = lookup2 (prng_keys random_split prng_key m N) t' i' →
       t = t' ∧ i = i').
Proof.
  intros Hlen.
  assert (∀ t i, t < m + N - 1 → i < N →
    is_Some (lookup2 (prng_keys random_split prng_key m N) t i)
    ∧ lookup2 (prng_keys random_split prng_key m N) t i
      = random_split prng_key ((m + N - 1) * N) !! (t * N + i)) as Hkey.
  { intros t i Ht Hi. unfold prng_keys, stack_and_reshape.
    rewrite lookup2_unflatten2 by done. split; [|done].
    apply lookup_lt_is_Some. rewrite Hlen. nia. }
  split; [done|]. intros Hnodup t i t' i' Ht Hi Ht' Hi' Heq.
  destruct (Hkey t i Ht Hi) as [[k Hk] E].
  destruct (Hkey t' i' Ht' Hi') as [_ E'].
  rewrite E, E' in Heq. rewrite E in Hk. rewrite Hk in Heq.
  pose proof (NoDup_lookup _ _ _ _ Hnodup Hk (eq_sym Heq)) as Hidx.
  assert (t = t') by nia. split; [done|]. subst. lia.
Qed.


End more_scheduler.

(** * The properties at concrete inputs *)

Lemma example_split_length (key : Z) (num : nat) :
  length (example_split key num) = num.
Proof. unfold example_split. by rewrite length_fmap, length_seq. Qed.

Lemma example_carry_shaped : carry_shaped 2 example_carry.
Proof. split; [done|]. repeat constructor. Qed.

Lemma example_xs_shaped : Forall (shaped 3 2) [example_xs].
Proof. repeat constructor. Qed.

Lemma example_state_shaped :
  Forall (λ x : list Z, length x = 3) example_state.
Proof. repeat constructor. Qed.

Lemma uniform_example_stage : uniform_structure example_stage 1 1 1 3 1.
Proof.
  intros s k c x Hs Hc Hx. unfold vmap_fn, example_stage. simpl.
  rewrite length_fmap, length_app. split_and!; [done|lia|done].
Qed.

Lemma transpose_to_pipeline_stage_inputs_diagonal_witness :
  shaped (2 + 3 - 1) 3 (transpose_to_pipeline_stage_inputs 0%Z example_xs)
  ∧ (∀ i j, i < 3 → j < 2 →
       is_Some (lookup2 example_xs i j)
       ∧ lookup2 (transpose_to_pipeline_stage_inputs 0%Z example_xs) (i + j) i
         = lookup2 example_xs i j)
  ∧ (∀ t i, t < 2 + 3 - 1 → i < 3 → ¬ (i ≤ t ∧ t - i < 2) →
       lookup2 (transpose_to_pipeline_stage_inputs 0%Z example_xs) t i
       = Some 0%Z).
Proof.
  apply (transpose_to_pipeline_stage_inputs_diagonal 0%Z example_xs 3 2);
    [lia|lia|split; [reflexivity|repeat constructor]].
Defined.

Lemma transpose_round_trip_witness :
  transpose_from_pipeline_stage_outputs 0%Z
    (transpose_to_pipeline_stage_inputs 0%Z example_xs) = example_xs.
Proof.
  apply (transpose_round_trip 0%Z example_xs 3 2);
    [lia|lia|split; [reflexivity|repeat constructor]].
Defined.

Lemma _is_valid_stage_correct_witness :
  (∀ t i : nat, t < 2 + 3 - 1 → i < 3 →
     ∃ mask, _is_valid_stage example_cfg [1; 2; 3]%Z (Z.of_nat t) = inr mask
             ∧ length mask = 3
             ∧ mask !! i = Some (bool_decide (i ≤ t ∧ t - i < 2)))
  ∧ length (valid_pairs example_cfg [1; 2; 3]%Z) = 3 * 2
  ∧ (3 = 3 → 2 = 2 →
     valid_pairs example_cfg [1; 2; 3]%Z
     ≡ₚ [(0, 0); (1, 1); (0, 1); (2, 2); (1, 2); (2, 3)]).
Proof.
  apply (_is_valid_stage_correct example_cfg [1; 2; 3]%Z);
    [simpl; lia|simpl; lia|simpl; lia|reflexivity].
Defined.


Lemma _compute_carry_input_shift_witness :
  ∃ row stage_input,
    [[1; 0; 0]; [2; 0; 0]]%Z !! (3 `mod` 2) = Some row
    ∧ _compute_carry_input 0%Z example_cfg [[[1; 0; 0]; [2; 0; 0]]%Z]
        [[7; 8; 9]%Z] (Z.of_nat 3) !! 0 = Some stage_input
    ∧ length stage_input = 3
    ∧ is_Some (stage_input !! 0)
    ∧ stage_input !! 0 = lookup2 [[1; 0; 0]; [2; 0; 0]]%Z (3 `mod` 2) 0
    ∧ (∀ k, 0 < k < 3 → stage_input !! k = [7; 8; 9]%Z !! (k - 1))
    ∧ take (length [7; 8; 9]%Z) (0%Z :: [7; 8; 9]%Z)
      = 0%Z :: take (3 - 1) [7; 8; 9]%Z
    ∧ stage_input
      = where_ ((λ i, bool_decide (i = 0)) <$> seq 0 3) row
          (0%Z :: take (3 - 1) [7; 8; 9]%Z).
Proof.
  apply (_compute_carry_input_shift 0%Z example_cfg
           [[[1; 0; 0]; [2; 0; 0]]%Z] [[7; 8; 9]%Z] 3 0
           [[1; 0; 0]; [2; 0; 0]]%Z [7; 8; 9]%Z);
    [simpl; lia|simpl; lia|reflexivity|split; [reflexivity|repeat constructor]|
     reflexivity|reflexivity].
Defined.





(** C9, for any leaf, fails.  A carry whose second leaf has shape [2],
    fewer than two dimensions, passes the entry check of [_run] and the
    call returns a result. *)
Lemma _run_accepts_rank1_leaf :
  ndim (Rows [] [5; 6]%Z) < 2
  ∧ example_carry_rank1 !! 1 = Some (Rows [] [5; 6]%Z)
  ∧ _run 0%Z example_split example_cfg [] 7%Z identity_stage
      (Some example_carry_rank1) None
    = inr (mkOutput [[100; 200]; [5; 6]]%Z
             [[[100; 200]; [100; 200]; [100; 200]];
              [[5; 6]; [5; 6]; [5; 6]]]%Z
             []).
Proof. split_and!; [unfold ndim; simpl; lia|done|by vm_compute]. Qed.

Lemma _run_rejects_carry_witness :
  (tree_leaves (Some [Rows [] [5; 6]%Z]) = [] →
   _run 0%Z example_split example_cfg example_state 7%Z example_stage
     (Some [Rows [] [5; 6]%Z]) None
   = inl (ValueError "Expected at least one input leaf."))
  ∧ (∀ leaf0,
       head (tree_leaves (Some [Rows [] [5; 6]%Z])) = Some leaf0 →
       ndim leaf0 < 2 →
       _run 0%Z example_split example_cfg example_state 7%Z example_stage
         (Some [Rows [] [5; 6]%Z]) None
       = inl (ValueError
           ("Expected leaves to have shape "
            +:+ "`[num_microbatches, microbatch_size, ...]`; "
            +:+ "instead, found " +:+ show_shape (shape leaf0) +:+ ".")))
  ∧ ∃ msg,
      _run 0%Z example_split example_cfg example_state 7%Z example_stage
        (Some [Rows [] [5; 6]%Z]) None = inl (ValueError msg).
Proof.
  apply (_run_rejects_carry 0%Z example_split example_cfg example_state 7%Z
           example_stage (Some [Rows [] [5; 6]%Z]) None).
  right. exists (Rows [] [5; 6]%Z). split; [reflexivity|].
  unfold ndim. simpl. lia.
Defined.

Lemma _run_requires_carry_witness :
  _run 0%Z example_split example_cfg example_state 7%Z example_stage
    None (Some [example_xs])
  = inl (ValueError "Expected at least one input leaf.").
Proof.
  apply (_run_requires_carry 0%Z example_split example_cfg example_state 7%Z
           example_stage None (Some [example_xs])).
Defined.

(** * The further properties at concrete inputs *)

Lemma example_stage_outputs_shaped : shaped (2 + 3 - 1) 3 example_stage_outputs.
Proof. split; [reflexivity|repeat constructor]. Qed.

Lemma transpose_from_pipeline_stage_outputs_diagonal_witness :
  shaped 3 2 (transpose_from_pipeline_stage_outputs 0%Z example_stage_outputs)
  ∧ ∀ i j, i < 3 → j < 2 →
      is_Some (lookup2 example_stage_outputs (i + j) i)
      ∧ lookup2 (transpose_from_pipeline_stage_outputs 0%Z
                   example_stage_outputs) i j
        = lookup2 example_stage_outputs (i + j) i.
Proof.
  apply (transpose_from_pipeline_stage_outputs_diagonal 0%Z
           example_stage_outputs 3 2);
    [lia|lia|apply example_stage_outputs_shaped].
Defined.

Lemma transpose_to_from_clears_bubbles_witness :
  (∀ t i, t < 2 + 3 - 1 → i < 3 →
     lookup2 (transpose_to_pipeline_stage_inputs 0%Z
                (transpose_from_pipeline_stage_outputs 0%Z
                   example_stage_outputs)) t i
     = if decide (i ≤ t ∧ t - i < 2) then lookup2 example_stage_outputs t i
       else Some 0%Z)
  ∧ (transpose_to_pipeline_stage_inputs 0%Z
       (transpose_from_pipeline_stage_outputs 0%Z example_stage_outputs)
     = example_stage_outputs
     ↔ ∀ t i, t < 2 + 3 - 1 → i < 3 → ¬ (i ≤ t ∧ t - i < 2) →
         lookup2 example_stage_outputs t i = Some 0%Z).
Proof.
  apply (transpose_to_from_clears_bubbles 0%Z example_stage_outputs 3 2);
    [lia|lia|apply example_stage_outputs_shaped].
Defined.

Lemma _to_microbatches_layout_witness :
  ∃ out,
    _to_microbatches example_cfg [example_batch] = Some out
    ∧ length out = length [example_batch]
    ∧ Forall (shaped 2 3) out
    ∧ ∀ l x j k, [example_batch] !! l = Some x → j < 2 → k < 3 →
        is_Some (x !! (k * 2 + j))
        ∧ lookup3 out l j k = x !! (k * 2 + j).
Proof.
  apply (_to_microbatches_layout example_cfg [example_batch] 3);
    [simpl; lia|repeat constructor].
Defined.

Lemma _from_to_microbatches_witness :
  ∃ out, _to_microbatches example_cfg [example_batch] = Some out
         ∧ _from_microbatches out = [example_batch].
Proof.
  apply (_from_to_microbatches example_cfg [example_batch]);
    [simpl; lia|repeat constructor].
Defined.

Lemma _to_from_microbatches_witness :
  _to_microbatches example_cfg
    (_from_microbatches [[[1; 3; 5]; [2; 4; 6]]%Z])
  = Some [[[1; 3; 5]; [2; 4; 6]]%Z].
Proof.
  apply (_to_from_microbatches example_cfg [[[1; 3; 5]; [2; 4; 6]]%Z]);
    [simpl; lia|].
  repeat constructor. exists 3. split; [reflexivity|repeat constructor].
Defined.

Lemma _to_microbatches_divisible_witness :
  is_Some (_to_microbatches example_cfg [example_batch; [1; 2; 3]%Z])
  ↔ Forall (λ x : list Z, length x `mod` 2 = 0)
      [example_batch; [1; 2; 3]%Z].
Proof.
  apply (_to_microbatches_divisible example_cfg
           [example_batch; [1; 2; 3]%Z]).
  simpl. lia.
Defined.

Lemma _is_valid_stage_span_witness :
  (∀ t : nat, t < 2 + 3 - 1 → (Z.of_nat (2 + 3 - 1) ≤ 2 ^ 31)%Z →
     ∃ mask i,
       _is_valid_stage example_cfg [1; 2; 3]%Z (Z.of_nat t) = inr mask
       ∧ i < 3 ∧ mask !! i = Some true)
  ∧ (∀ t : nat, 2 + 3 - 1 ≤ t → (Z.of_nat t < 2 ^ 31)%Z →
       _is_valid_stage example_cfg [1; 2; 3]%Z (Z.of_nat t)
       = inr (replicate 3 false)).
Proof.
  apply (_is_valid_stage_span example_cfg [1; 2; 3]%Z);
    [simpl; lia|simpl; lia|reflexivity].
Defined.

Lemma _run_rejects_unstacked_parameters_witness :
  _run 0%Z example_split example_cfg ([[1; 2; 3]] ++ [1; 2] :: [])%Z 7%Z
    example_stage (Some example_carry) (Some [example_xs])
  = inl (ValueError ("Leading dim " +:+ pretty (length [1; 2]%Z)
                     +:+ " does not match number of stages "
                     +:+ pretty 3 +:+ ".")).
Proof.
  apply (_run_rejects_unstacked_parameters 0%Z example_split example_cfg
           7%Z ([[1; 2; 3]] ++ [1; 2] :: [])%Z example_stage example_carry
           (Some [example_xs]) 2 [[1; 2; 3]]%Z [1; 2]%Z []);
    [simpl; lia|lia|apply example_carry_shaped|apply example_xs_shaped|
     reflexivity|repeat constructor|simpl; lia].
Defined.

Lemma scan_fn_applies_unmasked_parameters_witness :
  ∃ carry_out,
    scan_fn 0%Z example_cfg example_state example_stage
      (mkLoopState 3 [[7; 8; 9]%Z] [[[1; 0; 0]; [2; 0; 0]]%Z])
      ([70; 71; 72]%Z, [[0; 0; 32]%Z])
    = inr (carry_out,
           vmap example_stage example_state [70; 71; 72]%Z
             (_compute_carry_input 0%Z example_cfg
                [[[1; 0; 0]; [2; 0; 0]]%Z] [[7; 8; 9]%Z] 3) [[0; 0; 32]%Z])
    ∧ t carry_out = wrap32 (3 + 1)
    ∧ carry_output_t_1 carry_out
      = out_carry (vmap example_stage example_state [70; 71; 72]%Z
                     (_compute_carry_input 0%Z example_cfg
                        [[[1; 0; 0]; [2; 0; 0]]%Z] [[7; 8; 9]%Z] 3)
                     [[0; 0; 32]%Z])
    ∧ per_stage_inputs carry_out = [[[1; 0; 0]; [2; 0; 0]]%Z].
Proof.
  apply (scan_fn_applies_unmasked_parameters 0%Z example_cfg example_state
           example_stage
           (mkLoopState 3 [[7; 8; 9]%Z] [[[1; 0; 0]; [2; 0; 0]]%Z])
           [70; 71; 72]%Z [[0; 0; 32]%Z]).
  apply example_state_shaped.
Defined.

Lemma select_state_or_input_reads_slot_0_witness :
  select_state_or_input 0%Z example_cfg (Z.of_nat 3)
    [[1; 0; 0]; [2; 0; 0]]%Z [7; 8; 9]%Z
  = select_state_or_input 5%Z example_cfg (Z.of_nat 3)
      [[1; 4; 4]; [2; 6; 6]]%Z [7; 8; 9]%Z.
Proof.
  apply (select_state_or_input_reads_slot_0 0%Z example_cfg 5%Z 3
           [[1; 0; 0]; [2; 0; 0]]%Z [[1; 4; 4]; [2; 6; 6]]%Z [7; 8; 9]%Z);
    [simpl; lia|simpl; lia|split; [reflexivity|repeat constructor]|
     split; [reflexivity|repeat constructor]|reflexivity|reflexivity].
Defined.

Lemma pad_carry_pads_with_zeros_witness :
  ∃ v_carry,
    pad_carry 0%Z 3 (Rows [4] [100; 200]%Z) = inr v_carry
    ∧ shaped (length [100; 200]%Z) 3 v_carry
    ∧ ∀ j, j < length [100; 200]%Z →
        lookup2 v_carry j 0 = [100; 200]%Z !! j
        ∧ ∀ k, 0 < k < 3 → lookup2 v_carry j k = Some 0%Z.
Proof.
  apply (pad_carry_pads_with_zeros 0%Z [4] [100; 200]%Z 3). lia.
Defined.

Lemma _run_rejects_scalar_leaf_witness :
  ∃ e, ∀ fn xs,
    _run 0%Z example_split example_cfg example_state 7%Z fn
      (Some (Rows [4] [100; 200]%Z :: [Scalar 3%Z])) xs = inl e.
Proof.
  apply (_run_rejects_scalar_leaf 0%Z example_split example_cfg 7%Z
           example_state (Rows [4] [100; 200]%Z) [Scalar 3%Z] 3%Z);
    [unfold ndim; simpl; lia|by left].
Defined.

Lemma prng_keys_one_per_timestep_and_stage_witness :
  (∀ t i, t < 2 + 3 - 1 → i < 3 →
     is_Some (lookup2 (prng_keys example_split 7%Z 2 3) t i)
     ∧ lookup2 (prng_keys example_split 7%Z 2 3) t i
       = example_split 7%Z ((2 + 3 - 1) * 3) !! (t * 3 + i))
  ∧ (NoDup (example_split 7%Z ((2 + 3 - 1) * 3)) →
     ∀ t i t' i', t < 2 + 3 - 1 → i < 3 → t' < 2 + 3 - 1 → i' < 3 →
       lookup2 (prng_keys example_split 7%Z 2 3) t i
       = lookup2 (prng_keys example_split 7%Z 2 3) t' i' →
       t = t' ∧ i = i').
Proof.
  apply (prng_keys_one_per_timestep_and_stage example_split example_cfg
           7%Z 2).
  reflexivity.
Defined.

